(** * costcompare: the cable price dashboard of [app.py]

    A shallow embedding of the data pipeline of [app.py]: the line scanner of
    [load_and_process_data] with its three regular expressions, the pandas
    clean-up that follows it ([drop_duplicates], [sort_values]), the
    selection of the sidebar ([filtered_df]), the statistics of
    [calculate_price_changes], and the final [pivot].

    Python strings are sequences of Unicode code points; they are modelled as
    lists of [N].  Python integers are unbounded and modelled as [Z]; [int]
    is CPython 3.11's, which converts 4300 digits at most.  Exceptions are
    values of [result].

    The statistics are modelled twice.  [calculate_price_changes] evaluates
    the two formulas of the source over the real numbers: it says which
    records the statistics are taken from and when there are none, and it
    leaves out the arithmetic of the machine.  [np_calculate_price_changes]
    evaluates them as the source does, on the numpy scalars that the frame
    holds: 64-bit integers that wrap around and binary64 numbers.

    The model starts at the text of the listing: reading the file and
    decoding its JSON ([open], [json.load], [data.get]) are not part of
    it. *)

From Stdlib Require Import ZArith NArith List Lia String Ascii Reals Lra.
From Stdlib Require Import PrimFloat SpecFloat FloatOps.
From stdpp Require Import base tactics option list sorting.

(** ** Strings *)

Definition codepoint : Type := N.
Definition str : Type := list codepoint.

(** An ASCII literal of the source, as a Python string. *)
Definition lit (s : string) : str := map N_of_ascii (list_ascii_of_string s).

(** The glyph U+B144 that ends a year header in the price listing. *)
Definition nyeon : codepoint := 45380%N.
Definition comma : codepoint := 44%N.
Definition dot : codepoint := 46%N.
Definition newline : codepoint := 10%N.
Definition letter_S : codepoint := 83%N.
Definition letter_Q : codepoint := 81%N.

(** The class [\d] of Python's [re] on [str] patterns is the Unicode category
    Nd, which is also the set of characters that [int] reads as digits.  The
    category is made of blocks of ten consecutive code points, the digits 0 to
    9 of one script; the table lists the first code point of each block
    (Unicode 14.0, as shipped with CPython 3.11). *)
Definition digit_blocks : list N :=
  [48; 1632; 1776; 1984; 2406; 2534; 2662; 2790; 2918; 3046; 3174; 3302; 3430;
   3558; 3664; 3792; 3872; 4160; 4240; 6112; 6160; 6470; 6608; 6784; 6800;
   6992; 7088; 7232; 7248; 42528; 43216; 43264; 43472; 43504; 43600; 44016;
   65296; 66720; 68912; 69734; 69872; 69942; 70096; 70384; 70736; 70864;
   71248; 71360; 71472; 71904; 72016; 72784; 73040; 73120; 92768; 92864;
   93008; 120782; 120792; 120802; 120812; 120822; 123200; 123632; 125264;
   130032]%N.

Fixpoint block_of (c : codepoint) (blocks : list N) : option N :=
  match blocks with
  | [] => None
  | b :: blocks' =>
      if ((b <=? c) && (c <? b + 10))%N then Some b else block_of c blocks'
  end.

(** The decimal value of a digit, [None] for any other character. *)
Definition digit_value (c : codepoint) : option Z :=
  match block_of c digit_blocks with
  | Some b => Some (Z.of_N (c - b))
  | None => None
  end.

Definition is_digit (c : codepoint) : bool :=
  match digit_value c with Some _ => true | None => false end.

(** ** Exceptions *)

Inductive exn : Type :=
| KeyError        (* pandas: a column label that the frame does not have *)
| ValueError      (* int() on a non-number or on too many digits; pivot on
                     duplicate entries *)
| AttributeError. (* a method called on None *)

Inductive result (A : Type) : Type :=
| Ok (a : A)
| Raise (e : exn).
Arguments Ok {A} a.
Arguments Raise {A} e.

Definition rbind {A B} (x : result A) (f : A -> result B) : result B :=
  match x with
  | Ok a => f a
  | Raise e => Raise e
  end.

Declare Scope result_scope.
Delimit Scope result_scope with result.
Notation "'let*' x ':=' e 'in' k" := (rbind e (fun x => k))
  (at level 10, x name, e at level 100, k at level 200,
   only parsing) : result_scope.
Local Open Scope result_scope.

(** ** Regular expressions

    The fragment of Python's [re] syntax that the three patterns of
    [load_and_process_data] use.  Repetitions are greedy.  All three patterns
    have exactly one capturing group, so [Group] always stands for group 1. *)

Inductive regex : Type :=
| Eps                      (* the empty pattern *)
| Lit (c : codepoint)      (* a literal character *)
| Digit                    (* \d *)
| Cat (r1 r2 : regex)      (* r1 r2 *)
| Opt (r : regex)          (* r?, greedy, not capturing *)
| Star (r : regex)         (* r*, greedy, not capturing *)
| Group (r : regex).       (* (r), capturing *)

(** r+ *)
Definition Plus (r : regex) : regex := Cat r (Star r).

(** r{n} *)
Fixpoint Times (n : nat) (r : regex) : regex :=
  match n with
  | O => Eps
  | S n' => Cat r (Times n' r)
  end.

(** r{0,n}: as many as possible first, and not more than n *)
Fixpoint UpTo (n : nat) (r : regex) : regex :=
  match n with
  | O => Eps
  | S n' => Opt (Cat r (UpTo n' r))
  end.

(** r{lo,lo+extra} *)
Definition Between (lo extra : nat) (r : regex) : regex :=
  Cat (Times lo r) (UpTo extra r).

(** One way of matching a pattern at the start of a string: the characters
    taken, the contents of group 1 (if the group took part), and the rest of
    the string. *)
Record rmatch : Type := RMatch {
  consumed : str;
  group1 : option str;
  rest : str
}.

Definition then_match (m1 m2 : rmatch) : rmatch :=
  RMatch (consumed m1 ++ consumed m2) (group1 m2) (rest m2).

(** Greedy iteration of [step]: try one more round, then the rounds that
    follow, before giving up on this round.  A round that takes no character
    is not repeated; so the length of the string bounds the number of rounds. *)
Fixpoint star_run (step : str -> option str -> list rmatch) (fuel : nat)
    (s : str) (g : option str) : list rmatch :=
  match fuel with
  | O => [RMatch [] g s]
  | S fuel' =>
      flat_map (fun m1 =>
        match consumed m1 with
        | [] => []
        | _ :: _ =>
            map (then_match m1) (star_run step fuel' (rest m1) (group1 m1))
        end) (step s g)
      ++ [RMatch [] g s]
  end.

(** The backtracking matcher: all the ways in which [r] matches a prefix of
    [s], in the order in which the engine tries them.  [g] is what group 1
    holds so far. *)
Fixpoint run (r : regex) (s : str) (g : option str) : list rmatch :=
  match r with
  | Eps => [RMatch [] g s]
  | Lit c =>
      match s with
      | c' :: s' => if (c =? c')%N then [RMatch [c'] g s'] else []
      | [] => []
      end
  | Digit =>
      match s with
      | c' :: s' => if is_digit c' then [RMatch [c'] g s'] else []
      | [] => []
      end
  | Cat r1 r2 =>
      flat_map (fun m1 =>
        map (then_match m1) (run r2 (rest m1) (group1 m1))) (run r1 s g)
  | Opt r1 => run r1 s g ++ [RMatch [] g s]
  | Star r1 => star_run (run r1) (length s) s g
  | Group r1 =>
      map (fun m => RMatch (consumed m) (Some (consumed m)) (rest m))
          (run r1 s g)
  end.

(** [re.search]: the first way of matching at the leftmost position that has
    one. *)
Fixpoint re_search (r : regex) (line : str) : option rmatch :=
  match run r line None with
  | m :: _ => Some m
  | [] =>
      match line with
      | [] => None
      | _ :: line' => re_search r line'
      end
  end.

(** The three patterns of [load_and_process_data]. *)

(** year_pattern: (\d{4}) followed by the glyph U+B144 *)
Definition year_pattern : regex :=
  Cat (Group (Times 4 Digit)) (Lit nyeon).

(** size_pattern: (\d+(?:\.\d+)?SQ) *)
Definition size_pattern : regex :=
  Group (Cat (Plus Digit)
        (Cat (Opt (Cat (Lit dot) (Plus Digit)))
        (Cat (Lit letter_S) (Lit letter_Q)))).

(** price_pattern: group 1 around \d{1,3}(?:,\d{3})* *)
Definition price_pattern : regex :=
  Group (Cat (Between 1 2 Digit) (Star (Cat (Lit comma) (Times 3 Digit)))).

(** ** Python built-ins *)

(** [s.split(sep)] for a one-character separator: never an empty list. *)
Fixpoint str_split (sep : codepoint) (s : str) : list str :=
  match s with
  | [] => [[]]
  | c :: s' =>
      if (c =? sep)%N then [] :: str_split sep s'
      else match str_split sep s' with
           | l :: ls => (c :: l) :: ls
           | [] => [[c]]
           end
  end.

(** [s.replace(c, '')] for a one-character [c]. *)
Fixpoint str_remove (c : codepoint) (s : str) : str :=
  match s with
  | [] => []
  | c' :: s' => if (c' =? c)%N then str_remove c s' else c' :: str_remove c s'
  end.

Fixpoint int_digits (acc : Z) (s : str) : option Z :=
  match s with
  | [] => Some acc
  | c :: s' =>
      match digit_value c with
      | Some d => int_digits (10 * acc + d) s'
      | None => None
      end
  end.

(** The number of digits that [int] converts at most: the default of
    [sys.get_int_max_str_digits()] in CPython 3.11. *)
Definition int_max_str_digits : nat := 4300.

(** [int(s)] on a string of decimal digits.  A string of more than
    [int_max_str_digits] digits is refused with ValueError, whatever its
    value: leading zeros count.  Python's [int] also reads a sign,
    surrounding blanks and underscores; the scanner never passes such a
    string (it passes four digits, or the digits of a price token:
    [scan_line_price] below), and the model answers ValueError on them as it
    does on any string that is not a number. *)
Definition py_int (s : str) : result Z :=
  if (int_max_str_digits <? length s)%nat then Raise ValueError
  else
    match s with
    | [] => Raise ValueError
    | _ :: _ =>
        match int_digits 0 s with
        | Some v => Ok v
        | None => Raise ValueError
        end
    end.
Arguments py_int : simpl never.

(** Truth value of [None] or a string: only a non-empty string is true. *)
Definition truthy (o : option str) : bool :=
  match o with
  | Some (_ :: _) => true
  | _ => false
  end.

(** Comparison of strings: code point by code point, a proper prefix first. *)
Fixpoint str_compare (a b : str) : comparison :=
  match a, b with
  | [], [] => Eq
  | [], _ :: _ => Lt
  | _ :: _, [] => Gt
  | x :: a', y :: b' =>
      match (x ?= y)%N with
      | Eq => str_compare a' b'
      | o => o
      end
  end.

(** ** Records and data frames *)

(** One dict of [cable_data], one row of the frame. *)
Record row : Type := Row {
  year : Z;
  size : str;
  price : Z
}.

Global Instance row_eq_dec : EqDecision row.
Proof. solve_decision. Defined.

Inductive column : Type := year_col | size_col | price_col.

(** A frame built from a list of dicts has the keys of the dicts as columns:
    none at all when the list is empty. *)
Inductive frame : Type :=
| NoColumns
| Table (rows : list row).

Definition pd_DataFrame (data : list row) : frame :=
  match data with
  | [] => NoColumns
  | _ :: _ => Table data
  end.

(** [drop_duplicates] keeps the first of equal rows, in the order of the
    frame. *)
Fixpoint drop_duplicate_rows (seen rows : list row) : list row :=
  match rows with
  | [] => []
  | r :: rows' =>
      if bool_decide (r ∈ seen) then drop_duplicate_rows seen rows'
      else r :: drop_duplicate_rows (r :: seen) rows'
  end.

Definition drop_duplicates (df : frame) : frame :=
  match df with
  | NoColumns => NoColumns
  | Table rows => Table (drop_duplicate_rows [] rows)
  end.

Definition compare_on (c : column) (a b : row) : comparison :=
  match c with
  | year_col => (year a ?= year b)%Z
  | size_col => str_compare (size a) (size b)
  | price_col => (price a ?= price b)%Z
  end.

Fixpoint compare_by (by_ : list column) (a b : row) : comparison :=
  match by_ with
  | [] => Eq
  | c :: by' =>
      match compare_on c a b with
      | Eq => compare_by by' a b
      | o => o
      end
  end.

Definition leb_by (by_ : list column) (a b : row) : bool :=
  match compare_by by_ a b with
  | Gt => false
  | _ => true
  end.

Fixpoint insert_row (by_ : list column) (a : row) (sorted : list row)
    : list row :=
  match sorted with
  | [] => [a]
  | b :: sorted' =>
      if leb_by by_ a b then a :: sorted
      else b :: insert_row by_ a sorted'
  end.

(** Rows in ascending order of the columns [by_], rows that compare equal in
    the order they had.  (pandas sorts on several columns with a stable
    sort.  On one column it calls numpy's default sort, which keeps that
    order on arrays of sixteen elements at most and promises nothing on
    longer ones: see [size_data].) *)
Definition sort_rows (by_ : list column) (rows : list row) : list row :=
  foldr (insert_row by_) [] rows.

(** [df.sort_values(by)]: KeyError when the frame lacks a column of [by]. *)
Definition sort_values (by_ : list column) (df : frame) : result frame :=
  match df with
  | NoColumns =>
      match by_ with
      | [] => Ok NoColumns
      | _ :: _ => Raise KeyError
      end
  | Table rows => Ok (Table (sort_rows by_ rows))
  end.

(** ** [load_and_process_data] *)

(** The variables of the loop over the lines. *)
Record scan_state : Type := ScanState {
  current_year : option str;
  current_size : option str;
  cable_data : list row
}.

Definition initial_state : scan_state := ScanState None None [].

(** The body of the loop, for one line.  In the test [price_match and
    current_year and current_size] a match object counts as true, [None] and
    the empty string as false.  [int(current_year)] is evaluated only when
    the record is built, after the test on the price.  Nothing catches the
    ValueError of [int]: it ends the loop and the function. *)
Definition scan_line (st : scan_state) (line : str) : result scan_state :=
  match re_search year_pattern line with
  | Some year_match =>
      Ok (ScanState (group1 year_match) (current_size st) (cable_data st))
  | None =>
  match re_search size_pattern line with
  | Some size_match =>
      Ok (ScanState (current_year st) (group1 size_match) (cable_data st))
  | None =>
  match re_search price_pattern line with
  | Some price_match =>
      match current_year st, current_size st with
      | Some cy, Some cs =>
          if truthy (Some cy) && truthy (Some cs) then
            let* digits :=
              match group1 price_match with
              | Some g => Ok (str_remove comma g)
              | None => Raise AttributeError
              end in
            let* price := py_int digits in
            if (0 <? price)%Z then
              let* y := py_int cy in
              Ok (ScanState (current_year st) (current_size st)
                            (cable_data st ++ [Row y cs price]))
            else Ok st
          else Ok st
      | _, _ => Ok st
      end
  | None => Ok st
  end end end.

Fixpoint scan_lines (st : scan_state) (lines : list str)
    : result scan_state :=
  match lines with
  | [] => Ok st
  | line :: lines' =>
      let* st' := scan_line st line in
      scan_lines st' lines'
  end.

(** [load_and_process_data], from the text field of the input file on: the
    model takes the string that [data.get('text', '')] returned. *)
Definition load_and_process_data (text : str) : result frame :=
  let lines := str_split newline text in
  let* st := scan_lines initial_state lines in
  let df := pd_DataFrame (cable_data st) in
  let df := drop_duplicates df in
  sort_values [year_col; size_col] df.

(** ** Boolean indexing *)

(** [col.isin(values)]: for each entry of the column, whether it is one of
    [values]. *)
Definition isin {A} `{EqDecision A} (col values : list A) : list bool :=
  map (fun v => bool_decide (v ∈ values)) col.

(** [col == value] *)
Definition eq_mask {A} `{EqDecision A} (col : list A) (value : A) : list bool :=
  map (fun v => bool_decide (v = value)) col.

(** [mask1 & mask2] *)
Definition mask_and (mask1 mask2 : list bool) : list bool :=
  zip_with andb mask1 mask2.

(** [df[mask]]: the rows at which the mask is true, in the order of [df]. *)
Fixpoint select_rows (df : list row) (mask : list bool) : list row :=
  match df, mask with
  | r :: df', b :: mask' =>
      if b then r :: select_rows df' mask' else select_rows df' mask'
  | _, _ => []
  end.

(** ** The selection of the sidebar *)

(** [df[df['year'].isin(selected_years) & df['size'].isin(selected_sizes)]] *)
Definition filtered_df (df : list row) (selected_years : list Z)
    (selected_sizes : list str) : list row :=
  select_rows df (mask_and (isin (map year df) selected_years)
                           (isin (map size df) selected_sizes)).

(** ** [calculate_price_changes] *)

(** [df[df['size'] == size].sort_values('year')]: the records of the size in
    ascending order of year.  Records of one year keep the order of the frame
    here; pandas leaves their order to numpy's default sort, which keeps it
    on short arrays only.  What is proved of the statistics of a frame holds
    for every order of the records of one year, or compares two calls on the
    same records. *)
Definition size_data (df : list row) (sz : str) : list row :=
  sort_rows [year_col] (select_rows df (eq_mask (map size df) sz)).

(** *** Over the real numbers *)

(** The two expressions of the source, [((final_price - initial_price) /
    initial_price) * 100] and [((final_price / initial_price) **
    (1/years_diff) - 1) * 100], read as formulas over the real numbers.  This
    is what the expressions denote, not what the machine computes: the
    source evaluates them on numpy scalars ([np_total_change] and
    [np_avg_annual_change] below), where the difference of two prices wraps
    around in a column of unsigned integers and every operation on binary64
    numbers is rounded.  For a positive base, [Rpower] is the power of the
    formula. *)
Definition total_change (initial_price final_price : Z) : R :=
  ((IZR final_price - IZR initial_price) / IZR initial_price * 100)%R.

Definition avg_annual_change (initial_price final_price years_diff : Z) : R :=
  ((Rpower (IZR final_price / IZR initial_price) (1 / IZR years_diff) - 1)
   * 100)%R.

(** The function with the two formulas over the real numbers.  The pair
    [(None, None)] of the source is [None] here. *)
Definition calculate_price_changes (df : list row) (sz : str)
    : option (R * R) :=
  let sd := size_data df sz in
  if (2 <=? length sd)%nat then
    match head sd, last sd with
    | Some first_row, Some last_row =>
        let initial_price := price first_row in
        let final_price := price last_row in
        let years_diff := (year last_row - year first_row)%Z in
        if (0 <? years_diff)%Z then
          Some (total_change initial_price final_price,
                avg_annual_change initial_price final_price years_diff)
        else None
    | _, _ => None
    end
  else None.

(** *** On numpy scalars *)

(** The integer types of the columns of a frame. *)
Inductive int_dtype : Type := int64 | uint64.

Definition in_int64 (z : Z) : bool := ((- 2 ^ 63 <=? z) && (z <? 2 ^ 63))%Z.
Definition in_uint64 (z : Z) : bool := ((0 <=? z) && (z <? 2 ^ 64))%Z.

(** The type that [pd.DataFrame] gives a column of Python integers: int64
    when they all fit, uint64 when one is too large for int64 and they all
    fit uint64, and otherwise object, a column of Python integers ([None]
    here, and left out of what follows).  The type is that of the whole
    column of the frame: [drop_duplicates], [sort_values] and the selections
    keep it, whatever rows they keep. *)
Definition column_dtype (col : list Z) : option int_dtype :=
  if forallb in_int64 col then Some int64
  else if forallb in_uint64 col then Some uint64
  else None.

(** The integer that a type holds for the result of an operation: the result
    modulo 2^64, in the range of the type. *)
Definition np_wrap (dt : int_dtype) (z : Z) : Z :=
  match dt with
  | int64 => ((z + 2 ^ 63) mod 2 ^ 64 - 2 ^ 63)%Z
  | uint64 => (z mod 2 ^ 64)%Z
  end.

(** [a - b] on two scalars of one integer type: no error on overflow. *)
Definition np_subtract (dt : int_dtype) (a b : Z) : Z := np_wrap dt (a - b).

(** An integer as a binary64 number, rounded to the nearest, ties to even:
    what a division does to its integer operands. *)
Definition float_of_int (z : Z) : float :=
  SF2Prim (binary_normalize prec emax z 0 false).

(** [((final_price - initial_price) / initial_price) * 100] on two scalars
    of the price column: the difference is an integer of the type of the
    column, the quotient and the product are binary64 numbers. *)
Definition np_total_change (dt : int_dtype) (initial_price final_price : Z)
    : float :=
  (float_of_int (np_subtract dt final_price initial_price)
   / float_of_int initial_price * float_of_int 100)%float.

Section numpy_power.
(** The power of two binary64 numbers is that of the C library, which the
    model takes as it is. *)
Variable np_power : float -> float -> float.

(** [((final_price / initial_price) ** (1/years_diff) - 1) * 100] *)
Definition np_avg_annual_change (initial_price final_price years_diff : Z)
    : float :=
  ((np_power (float_of_int final_price / float_of_int initial_price)
             (float_of_int 1 / float_of_int years_diff)
    - float_of_int 1) * float_of_int 100)%float.

(** [calculate_price_changes] on the scalars of a frame whose price column
    has the type [dt].  The year column is int64: the years of the frame
    that [load_and_process_data] returns have four digits. *)
Definition np_calculate_price_changes (dt : int_dtype) (df : list row)
    (sz : str) : option (float * float) :=
  let sd := size_data df sz in
  if (2 <=? length sd)%nat then
    match head sd, last sd with
    | Some first_row, Some last_row =>
        let initial_price := price first_row in
        let final_price := price last_row in
        let years_diff := np_subtract int64 (year last_row) (year first_row) in
        if (0 <? years_diff)%Z then
          Some (np_total_change dt initial_price final_price,
                np_avg_annual_change initial_price final_price years_diff)
        else None
    | _, _ => None
    end
  else None.
End numpy_power.

(** ** [pivot] *)

Fixpoint insert_unique {A} (cmp : A -> A -> comparison) (a : A) (l : list A)
    : list A :=
  match l with
  | [] => [a]
  | b :: l' =>
      match cmp a b with
      | Lt => a :: l
      | Eq => l
      | Gt => b :: insert_unique cmp a l'
      end
  end.

(** The distinct values of a column, ascending: the labels of an axis. *)
Definition axis_labels {A} (cmp : A -> A -> comparison) (l : list A) : list A :=
  foldr (insert_unique cmp) [] l.

(** The table that the page shows: a row per size, a column per year, and in
    each cell the price of that size in that year, or nothing (NaN).  A
    table with an empty cell is a table of binary64 numbers in pandas, and
    [round(2)] scales a binary64 number by 100 and back: the cell holds the
    price itself as long as a hundred times the price is an integer that
    binary64 has, which is so below 2^46.  The model holds the price itself
    in every case; [pivot_cells] is about prices below 2^46. *)
Record PricePivot : Type := Pivot {
  pivot_index : list str;
  pivot_columns : list Z;
  pivot_values : list (list (option Z))
}.

Definition cell_of (df : list row) (s : str) (y : Z) : option Z :=
  match filter (fun r => size r = s ∧ year r = y) df with
  | r :: _ => Some (price r)
  | [] => None
  end.

(** [df.pivot(index='size', columns='year', values='price').round(2)]:
    pandas refuses to reshape a frame in which two rows have the same index
    and column (ValueError: Index contains duplicate entries, cannot
    reshape). *)
Definition pivot (df : list row) : result PricePivot :=
  if bool_decide (NoDup (map (fun r => (size r, year r)) df)) then
    let index := axis_labels str_compare (map size df) in
    let columns := axis_labels Z.compare (map year df) in
    Ok (Pivot index columns
          (map (fun s => map (fun y => cell_of df s y) columns) index))
  else Raise ValueError.

(** The cell of a pivot table at a given label pair, if the table has both
    labels and a price there. *)
Definition pivot_cell (p : PricePivot) (s : str) (y : Z) : option Z :=
  match list_find (fun s' => s' = s) (pivot_index p),
        list_find (fun y' => y' = y) (pivot_columns p) with
  | Some (i, _), Some (j, _) =>
      match pivot_values p !! i with
      | Some cells => mjoin (cells !! j)
      | None => None
      end
  | _, _ => None
  end.

(** ** The rest of the page *)

(** [col.unique()]: the values of a column, each once, in the order in which
    they first appear. *)
Fixpoint unique_from {A} `{EqDecision A} (seen col : list A) : list A :=
  match col with
  | [] => []
  | v :: col' =>
      if bool_decide (v ∈ seen) then unique_from seen col'
      else v :: unique_from (v :: seen) col'
  end.

Definition unique {A} `{EqDecision A} (col : list A) : list A :=
  unique_from [] col.

Fixpoint insert_sorted {A} (cmp : A -> A -> comparison) (a : A) (l : list A)
    : list A :=
  match l with
  | [] => [a]
  | b :: l' =>
      match cmp a b with
      | Gt => b :: insert_sorted cmp a l'
      | _ => a :: l
      end
  end.

(** [sorted(values)]: ascending, equal values in the order they had. *)
Definition py_sorted {A} (cmp : A -> A -> comparison) (l : list A) : list A :=
  foldr (insert_sorted cmp) [] l.

(** [sorted(df['year'].unique())], the options and the default of the first
    selector. *)
Definition available_years (df : list row) : list Z :=
  py_sorted Z.compare (unique (map year df)).

(** [sorted(df['size'].unique())], the options of the second selector. *)
Definition available_sizes (df : list row) : list str :=
  py_sorted str_compare (unique (map size df)).

(** [available_sizes[:5] if len(available_sizes) > 5 else available_sizes],
    the default of the second selector. *)
Definition default_sizes (df : list row) : list str :=
  if (5 <? length (available_sizes df))%nat
  then take 5 (available_sizes df)
  else available_sizes df.

(** One line of the chart: the years and the prices of the selected records
    of one size, in the order of the frame. *)
Record trace : Type := Trace {
  trace_name : str;
  trace_x : list Z;
  trace_y : list Z
}.

(** The loop that fills the chart: one trace per selected size, from
    [filtered_df[filtered_df['size'] == size]]. *)
Definition chart_traces (filtered : list row) (selected_sizes : list str)
    : list trace :=
  map (fun sz =>
         let sd := select_rows filtered (eq_mask (map size filtered) sz) in
         Trace sz (map year sd) (map price sd))
      selected_sizes.

(** * The vocabulary of the properties *)

(** ** Languages and tokens *)

(** Strings of digits are what [int] reads. *)
Definition digits (s : str) : Prop := Forall (fun c => is_digit c = true) s.

(** The strings that a pattern denotes, whatever the order in which the
    matcher finds them. *)
Inductive lang : regex -> str -> Prop :=
| lang_eps : lang Eps []
| lang_lit c : lang (Lit c) [c]
| lang_digit c : is_digit c = true -> lang Digit [c]
| lang_cat r1 r2 a b : lang r1 a -> lang r2 b -> lang (Cat r1 r2) (a ++ b)
| lang_opt_skip r : lang (Opt r) []
| lang_opt_take r a : lang r a -> lang (Opt r) a
| lang_star_stop r : lang (Star r) []
| lang_star_more r a b : lang r a -> lang (Star r) b -> lang (Star r) (a ++ b)
| lang_group r a : lang r a -> lang (Group r) a.

(** A way of matching [r] on [s] splits [s] into a string of the language
    and the rest. *)
Definition sound_at (r : regex) (s : str) (m : rmatch) : Prop :=
  s = consumed m ++ rest m /\ lang r (consumed m).

(** The first way of matching, pattern by pattern. *)
Definition first_match (r : regex) (s : str) (g : option str) : option rmatch :=
  head (run r s g).

(** Patterns that match at every position, if only the empty string. *)
Definition always (r : regex) : Prop := forall s g, run r s g <> [].

(** What group 1 of [year_pattern] holds: four digits. *)
Definition year_token (y : str) : Prop := length y = 4%nat /\ digits y.

(** A number, whole or with a decimal part. *)
Definition number_token (n : str) : Prop :=
  (n <> [] /\ digits n)
  \/ exists a b, n = a ++ dot :: b /\ a <> [] /\ digits a /\ b <> [] /\ digits b.

(** The cross-section grammar: a number and the letters SQ. *)
Definition cross_section_token (s : str) : Prop :=
  exists n, number_token n /\ s = n ++ lit "SQ".

(** A run of digits grouped in triples: one to three digits [hd], then the
    triples [groups], each after a comma. *)
Definition price_token (hd : str) (groups : list str) (g : str) : Prop :=
  g = hd ++ flat_map (fun t => comma :: t) groups
  /\ (1 <= length hd <= 3)%nat /\ digits hd
  /\ Forall (fun t => length t = 3%nat /\ digits t) groups.

(** Whether a string goes on with a digit, and whether it goes on with one
    more group of a price: a comma and three digits. *)
Definition starts_digit (s : str) : bool :=
  match s with
  | c :: _ => is_digit c
  | [] => false
  end.

Definition starts_group (s : str) : bool :=
  match s with
  | c :: d1 :: d2 :: d3 :: _ =>
      (comma =? c)%N && is_digit d1 && is_digit d2 && is_digit d3
  | _ => false
  end.

(** The first grouped run of digits of a line, read whole.  No digit stands
    in [before]; the run starts with the digits [hd], as many as there are
    up to three, and goes on with the triples [groups], each after a comma,
    as many as there are; [after] is the rest of the line. *)
Definition first_run (line before hd : str) (groups : list str) (after : str)
    : Prop :=
  line = before ++ (hd ++ flat_map (fun t => comma :: t) groups) ++ after
  /\ Forall (fun c => is_digit c = false) before
  /\ (1 <= length hd <= 3)%nat /\ digits hd
  /\ Forall (fun t => length t = 3%nat /\ digits t) groups
  /\ (length hd = 3%nat
      \/ starts_digit (flat_map (fun t => comma :: t) groups ++ after) = false)
  /\ starts_group after = false.

(** ** Records and states *)

(** The invariant of a price record. *)
Definition good_row (r : row) : Prop :=
  (0 < price r)%Z /\ cross_section_token (size r).

(** What holds of the loop variables after any number of lines. *)
Definition wf_state (st : scan_state) : Prop :=
  (forall y, current_year st = Some y -> year_token y)
  /\ (forall s, current_size st = Some s -> cross_section_token s)
  /\ Forall good_row (cable_data st).

(** The state after [cable_data.append(r)]. *)
Definition append_record (st : scan_state) (r : row) : scan_state :=
  ScanState (current_year st) (current_size st) (cable_data st ++ [r]).

(** ** Orders *)

(** The order in which [sort_rows by_] puts the rows. *)
Definition le_by (by_ : list column) (a b : row) : Prop :=
  leb_by by_ a b = true.

(** By year, and within a year by size as a string. *)
Definition row_le (a b : row) : Prop :=
  (year a < year b)%Z
  \/ (year a = year b /\ str_compare (size a) (size b) <> Gt).

(** ** The history of a size *)

(** The years in which the record set has a record of the size. *)
Definition years_of (df : list row) (sz : str) : list Z :=
  map year (filter (fun r => size r = sz) df).

(** The span of a list of years: the latest minus the earliest. *)
Definition year_span (ys : list Z) : option Z :=
  match ys with
  | [] => None
  | y :: ys' => Some (foldr Z.max y ys' - foldr Z.min y ys')%Z
  end.

(** The cell of the pivot table in which a record falls. *)
Definition cell_key (r : row) : str * Z := (size r, year r).

(** ** Example inputs *)

(** Lines joined with newlines: how the examples write a text. *)
Definition join_lines (lines : list str) : str :=
  match lines with
  | [] => []
  | l :: ls => l ++ flat_map (fun l' => newline :: l') ls
  end.

(** The listing of section 8 of the specification: two years, one size. *)
Definition scenario_text : str :=
  join_lines [lit "2020" ++ [nyeon]; lit "2.5SQ"; lit "1,000";
              lit "2023" ++ [nyeon]; lit "2.5SQ"; lit "1,300"].

Definition scenario_records : list row :=
  [Row 2020 (lit "2.5SQ") 1000; Row 2023 (lit "2.5SQ") 1300].

(** A state of the loop after a year line and a size line. *)
Definition state_2020 : scan_state :=
  ScanState (Some (lit "2020")) (Some (lit "2.5SQ")) [].

(** A price of 4301 digits: 12 and 1433 groups of three zeros. *)
Definition long_price_groups : list str := repeat (lit "000") 1433.

Definition long_price_line : str :=
  lit "12" ++ flat_map (fun t => comma :: t) long_price_groups.

(** A listing with a price that int64 does not hold: 2^63 in 2020, and 1 in
    2021. *)
Definition overflow_text : str :=
  join_lines [lit "2020" ++ [nyeon]; lit "2.5SQ";
              lit "9,223,372,036,854,775,808";
              lit "2021" ++ [nyeon]; lit "2.5SQ"; lit "1"].

Definition overflow_records : list row :=
  [Row 2020 (lit "2.5SQ") (2 ^ 63); Row 2021 (lit "2.5SQ") 1].

(** Strictly before, by a three-way comparison. *)
Definition cmp_lt {A} (cmp : A -> A -> comparison) (a b : A) : Prop :=
  cmp a b = Lt.

(** ** The headers in force *)

(** The year in force after a line: the one the line announces, or the one
    in force before it. *)
Definition year_after (cy : option str) (line : str) : option str :=
  match re_search year_pattern line with
  | Some m => group1 m
  | None => cy
  end.

(** The size in force after a line: the one the line announces if it is not
    a year line, or the one in force before it. *)
Definition size_after (cs : option str) (line : str) : option str :=
  match re_search year_pattern line with
  | Some _ => cs
  | None =>
      match re_search size_pattern line with
      | Some m => group1 m
      | None => cs
      end
  end.

(** The price that a line quotes: the positive integer that the first run of
    grouped digits reads as, for a line that is neither a year line nor a
    size line. *)
Definition quoted_price (line : str) : option Z :=
  match re_search year_pattern line, re_search size_pattern line,
        re_search price_pattern line with
  | None, None, Some m =>
      match py_int (str_remove comma (consumed m)) with
      | Ok v => if (0 <? v)%Z then Some v else None
      | Raise _ => None
      end
  | _, _, _ => None
  end.

(** The rows that a line adds to [cable_data] under given headers. *)
Definition new_rows (cy cs : option str) (line : str) : list row :=
  match cy, cs, quoted_price line with
  | Some y, Some s, Some v =>
      match py_int y with
      | Ok yv => [Row yv s v]
      | Raise _ => []
      end
  | _, _, _ => []
  end.

(** What may follow a grouped number on its line: nothing, or a character
    that is neither a digit nor a comma. *)
Definition ends_number (after : str) : Prop :=
  match after with
  | [] => True
  | c :: _ => is_digit c = false /\ c <> comma
  end.

(** The record that the listing [before ++ [line]] quotes on its last line:
    the price of that line under the year and the size in force after the
    lines [before]. *)
Definition quoted_record (before : list str) (line : str) (r : row) : Prop :=
  exists y,
    foldl year_after None before = Some y
    /\ py_int y = Ok (year r)
    /\ foldl size_after None before = Some (size r)
    /\ quoted_price line = Some (price r).



(** The records that a trace draws. *)
Definition trace_records (t : trace) : list row :=
  zip_with (fun x y => Row x (trace_name t) y) (trace_x t) (trace_y t).

(** * Properties *)

(** ** Digits *)

Lemma block_of_bounds c blocks b :
  block_of c blocks = Some b -> (b <= c < b + 10)%N.
Proof.
  induction blocks as [|b' blocks IH]; simpl; [discriminate|].
  destruct ((b' <=? c) && (c <? b' + 10))%N eqn:E; [|exact IH].
  intros [= <-]. apply andb_true_iff in E as [H1 H2].
  apply N.leb_le in H1. apply N.ltb_lt in H2. lia.
Qed.

Lemma digit_value_range c d : digit_value c = Some d -> (0 <= d <= 9)%Z.
Proof.
  unfold digit_value. destruct (block_of c digit_blocks) as [b|] eqn:E;
    [|discriminate].
  intros [= <-]. apply block_of_bounds in E. lia.
Qed.

Lemma is_digit_value c : is_digit c = true <-> exists d, digit_value c = Some d.
Proof.
  unfold is_digit. destruct (digit_value c) as [d|].
  - split; [eauto|reflexivity].
  - split; [discriminate|]. intros [d [=]].
Qed.

Lemma digit_not_comma c : is_digit c = true -> (comma =? c)%N = false.
Proof.
  intros H. apply N.eqb_neq. intros <-. vm_compute in H. discriminate.
Qed.

Lemma digit_not_nyeon c : is_digit c = true -> c <> nyeon.
Proof. intros H ->. vm_compute in H. discriminate. Qed.

Lemma digit_not_letter_S c : is_digit c = true -> c <> letter_S.
Proof. intros H ->. vm_compute in H. discriminate. Qed.

Lemma int_digits_total s : digits s -> forall acc, exists v, int_digits acc s = Some v.
Proof.
  induction 1 as [|c s Hc _ IH]; intros acc; simpl; [eauto|].
  apply is_digit_value in Hc as [d ->]. apply IH.
Qed.

Lemma int_digits_lower s : forall acc v,
  int_digits acc s = Some v -> (0 <= acc)%Z -> (acc <= v)%Z.
Proof.
  induction s as [|c s IH]; simpl; intros acc v H Hacc.
  - injection H as <-. lia.
  - destruct (digit_value c) as [d|] eqn:E; [|discriminate].
    apply digit_value_range in E. apply IH in H; lia.
Qed.

(** [int] reads a string of digits that is not too long, and refuses with
    ValueError whatever it refuses. *)
Lemma py_int_digits s :
  digits s -> s <> [] -> (length s <= int_max_str_digits)%nat ->
  exists v, py_int s = Ok v /\ (0 <= v)%Z.
Proof.
  intros Hd Hne Hlen. unfold py_int.
  destruct (Nat.ltb_spec int_max_str_digits (length s)); [lia|].
  destruct s as [|c s]; [done|].
  destruct (int_digits_total _ Hd 0%Z) as [v Hv].
  exists v. rewrite Hv. split; [done|].
  apply int_digits_lower in Hv; lia.
Qed.

Lemma py_int_long s :
  (int_max_str_digits < length s)%nat -> py_int s = Raise ValueError.
Proof.
  intros Hlen. unfold py_int.
  destruct (Nat.ltb_spec int_max_str_digits (length s)); [done|lia].
Qed.


(** The limit is the one that CPython reports: 4300 digits are read, 4301
    are not, zeros or not. *)
Example py_int_limit :
  (exists v, py_int (repeat 49%N 4300) = Ok v)
  /\ py_int (repeat 49%N 4301) = Raise ValueError
  /\ py_int (repeat 48%N 4301) = Raise ValueError.
Proof.
  split;
    [|split; apply py_int_long; rewrite repeat_length;
      unfold int_max_str_digits; lia].
  destruct (py_int_digits (repeat 49%N 4300)) as (v & Hv & _);
    [| |by rewrite repeat_length|by exists v].
  - apply Forall_forall. intros c Hc%list_elem_of_In%repeat_spec. by subst.
  - done.
Qed.

(** ** The matcher is sound for the language of the pattern *)

Lemma star_run_sound r :
  (forall s g m, In m (run r s g) -> sound_at r s m) ->
  forall fuel s g m, In m (star_run (run r) fuel s g) -> sound_at (Star r) s m.
Proof.
  intros Hstep. induction fuel as [|fuel IH]; intros s g m; simpl.
  - intros [<-|[]]. split; [done|constructor].
  - rewrite in_app_iff, in_flat_map. intros [(m1 & H1 & H2)|[<-|[]]].
    + assert (In m (map (then_match m1)
                (star_run (run r) fuel (rest m1) (group1 m1)))) as H3
        by (destruct (consumed m1); [destruct H2|exact H2]).
      apply in_map_iff in H3 as (m2 & <- & H3).
      apply Hstep in H1 as [-> L1]. apply IH in H3 as [E2 L2].
      split; simpl; [by rewrite E2, <- app_assoc|by constructor].
    + split; [done|constructor].
Qed.

Lemma run_sound r : forall s g m, In m (run r s g) -> sound_at r s m.
Proof.
  induction r as [|c| |r1 IH1 r2 IH2|r IH|r IH|r IH]; intros s g m; simpl.
  - intros [<-|[]]. split; [done|constructor].
  - destruct s as [|c' s]; [intros []|].
    destruct (N.eqb_spec c c') as [->|]; [|intros []].
    intros [<-|[]]. split; [done|constructor].
  - destruct s as [|c' s]; [intros []|].
    destruct (is_digit c') eqn:E; [|intros []].
    intros [<-|[]]. split; [done|by constructor].
  - rewrite in_flat_map. intros (m1 & H1 & H2).
    apply in_map_iff in H2 as (m2 & <- & H2).
    apply IH1 in H1 as [-> L1]. apply IH2 in H2 as [E2 L2].
    split; simpl; [by rewrite E2, <- app_assoc|by constructor].
  - rewrite in_app_iff. intros [H|[<-|[]]].
    + apply IH in H as [-> L]. split; [done|by constructor].
    + split; [done|constructor].
  - by apply star_run_sound.
  - rewrite in_map_iff. intros (m1 & <- & H).
    apply IH in H as [-> L]. split; [done|by constructor].
Qed.

(** [re.search] returns the first way of matching at the first position at
    which the pattern matches at all. *)
Lemma re_search_Some r line m :
  re_search r line = Some m ->
  exists before, line = before ++ consumed m ++ rest m
    /\ head (run r (consumed m ++ rest m) None) = Some m
    /\ lang r (consumed m)
    /\ forall b1 b2, before = b1 ++ b2 -> b2 <> [] ->
         run r (b2 ++ consumed m ++ rest m) None = [].
Proof.
  induction line as [|c line IH]; simpl.
  - destruct (run r [] None) as [|m' ms] eqn:E; [discriminate|].
    intros [= ->]. exists [].
    assert (In m (run r [] None)) as [Hs Hl]%run_sound by (rewrite E; by left).
    rewrite <- Hs, E. split_and!; [done..|].
    intros b1 b2 Hb. by destruct b1, b2.
  - destruct (run r (c :: line) None) as [|m' ms] eqn:E.
    + intros (before & -> & Hh & Hl & Hbefore)%IH.
      exists (c :: before). split_and!; [done..|].
      intros b1 b2 Hb Hne. destruct b1 as [|c1 b1]; simpl in Hb.
      * subst b2. exact E.
      * injection Hb as -> ->. by eapply Hbefore.
    + intros [= ->]. exists [].
      assert (In m (run r (c :: line) None)) as [Hs Hl]%run_sound
        by (rewrite E; by left).
      rewrite <- Hs, E. split_and!; [done..|].
      intros b1 b2 Hb. by destruct b1, b2.
Qed.

Lemma re_search_None r line :
  re_search r line = None ->
  forall before after, line = before ++ after -> run r after None = [].
Proof.
  induction line as [|c line IH]; simpl.
  - destruct (run r [] None) eqn:E; [|discriminate].
    intros _ before after Hb. by destruct before, after.
  - destruct (run r (c :: line) None) eqn:E; [|discriminate].
    intros H before after Hb. destruct before as [|c1 before]; simpl in Hb.
    + by subst after.
    + injection Hb as -> ->. by eapply IH.
Qed.

(** The searches on a few lines: the year pattern takes the four digits next
    to the glyph, the size pattern starts at the first digit from which a
    number and SQ follow, the price pattern stops at a comma that three
    digits do not follow. *)
Example year_search_example :
  re_search year_pattern (lit "12345" ++ [nyeon])
  = Some (RMatch (lit "2345" ++ [nyeon]) (Some (lit "2345")) []).
Proof. reflexivity. Qed.

Example size_search_example :
  re_search size_pattern (lit "1.2.5SQ x")
  = Some (RMatch (lit "2.5SQ") (Some (lit "2.5SQ")) (lit " x")).
Proof. reflexivity. Qed.

Example price_search_example :
  re_search price_pattern (lit "ab1,234,56 x")
  = Some (RMatch (lit "1,234") (Some (lit "1,234")) (lit ",56 x")).
Proof. reflexivity. Qed.

Example price_search_no_digit : re_search price_pattern (lit "n/a") = None.
Proof. reflexivity. Qed.

(** ** The tokens that the three patterns capture *)

Ltac invert H := inversion H; subst; clear H.

Lemma lang_times_digit n y :
  lang (Times n Digit) y -> length y = n /\ digits y.
Proof.
  revert y. induction n as [|n IH]; simpl; intros y H.
  - invert H. split; [done|constructor].
  - invert H. match goal with H : lang Digit _ |- _ => invert H end.
    match goal with H : lang (Times _ _) _ |- _ => apply IH in H as [<- ?] end.
    split; [done|]. by constructor.
Qed.

Lemma lang_upto_digit n y :
  lang (UpTo n Digit) y -> (length y <= n)%nat /\ digits y.
Proof.
  revert y. induction n as [|n IH]; simpl; intros y H.
  - invert H. split; [done|constructor].
  - invert H; [split; [simpl; lia|constructor]|].
    match goal with H : lang (Cat _ _) _ |- _ => invert H end.
    match goal with H : lang Digit _ |- _ => invert H end.
    match goal with H : lang (UpTo _ _) _ |- _ => apply IH in H as [? ?] end.
    split; [simpl; lia|]. by constructor.
Qed.

Lemma lang_star_digit y : lang (Star Digit) y -> digits y.
Proof.
  intros H. remember (Star Digit) as r eqn:Er.
  induction H; try discriminate; injection Er as ->.
  - constructor.
  - match goal with H : lang Digit _ |- _ => invert H end.
    constructor; [done|]. by apply IHlang2.
Qed.

Lemma lang_plus_digit y : lang (Plus Digit) y -> y <> [] /\ digits y.
Proof.
  intros H. invert H.
  match goal with H : lang Digit _ |- _ => invert H end.
  match goal with H : lang (Star _) _ |- _ => apply lang_star_digit in H end.
  split; [done|]. by constructor.
Qed.

Lemma lang_size_token s :
  lang size_pattern s -> cross_section_token s.
Proof.
  intros H. invert H.
  match goal with H : lang (Cat _ _) _ |- _ => invert H end.
  match goal with H : lang (Plus _) _ |- _ =>
    apply lang_plus_digit in H as [Ha Hda] end.
  match goal with H : lang (Cat _ _) _ |- _ => invert H end.
  match goal with H : lang (Cat (Lit _) (Lit _)) _ |- _ => invert H end.
  repeat match goal with H : lang (Lit _) _ |- _ => invert H end.
  match goal with H : lang (Opt _) _ |- _ => invert H end.
  - exists a. split; [by left|done].
  - match goal with H : lang (Cat _ _) _ |- _ => invert H end.
    match goal with H : lang (Lit _) _ |- _ => invert H end.
    match goal with H : lang (Plus _) _ |- _ =>
      apply lang_plus_digit in H as [Hb Hdb] end.
    exists (a ++ dot :: b). split.
    + right. by exists a, b.
    + by rewrite <- !app_assoc.
Qed.

Lemma lang_price_groups s :
  lang (Star (Cat (Lit comma) (Times 3 Digit))) s ->
  exists groups, s = flat_map (fun t => comma :: t) groups
    /\ Forall (fun t => length t = 3%nat /\ digits t) groups.
Proof.
  intros H. remember (Star (Cat (Lit comma) (Times 3 Digit))) as r eqn:Er.
  induction H; try discriminate; injection Er as ->.
  - exists []. split; [done|constructor].
  - destruct IHlang2 as (groups & -> & Hg); [done|].
    match goal with H : lang (Cat _ _) _ |- _ => invert H end.
    match goal with H : lang (Lit _) _ |- _ => invert H end.
    match goal with H : lang (Cat Digit _) ?t |- _ =>
      apply (lang_times_digit 3) in H as [? ?]; exists (t :: groups) end.
    split; [by rewrite <- app_assoc|]. by constructor.
Qed.

Lemma lang_price_token s :
  lang price_pattern s -> exists hd groups, price_token hd groups s.
Proof.
  intros H. invert H.
  match goal with H : lang (Cat _ _) _ |- _ => invert H end.
  match goal with H : lang (Star _) _ |- _ =>
    apply lang_price_groups in H as (groups & -> & Hg) end.
  match goal with H : lang (Between _ _ _) _ |- _ => invert H end.
  match goal with H : lang (Cat Digit Eps) _ |- _ =>
    apply (lang_times_digit 1) in H as [? ?] end.
  match goal with H : lang (Opt _) _ |- _ =>
    apply (lang_upto_digit 2) in H as [? ?] end.
  eexists _, groups. split_and!; [done| | |by apply Forall_app|done].
  - rewrite length_app. lia.
  - rewrite length_app. lia.
Qed.

(** Removing the commas of a price token leaves its digits. *)
Lemma str_remove_digits c s :
  is_digit c = false -> digits s -> str_remove c s = s.
Proof.
  intros Hc. induction 1 as [|c' s Hc' _ IH]; simpl; [done|].
  destruct (N.eqb_spec c' c) as [->|]; [congruence|]. by rewrite IH.
Qed.

Lemma str_remove_app c a b :
  str_remove c (a ++ b) = str_remove c a ++ str_remove c b.
Proof.
  induction a as [|x a IH]; simpl; [done|].
  destruct (x =? c)%N; simpl; by rewrite IH.
Qed.

Lemma price_token_digits hd groups g :
  price_token hd groups g ->
  str_remove comma g = hd ++ concat groups
  /\ digits (hd ++ concat groups) /\ hd ++ concat groups <> [].
Proof.
  intros (-> & Hlen & Hhd & Hg).
  assert (str_remove comma (flat_map (fun t => comma :: t) groups)
          = concat groups /\ digits (concat groups)) as [E D].
  { induction Hg as [|t groups [_ Ht] _ [IH1 IH2]]; simpl.
    - split; [done|constructor].
    - change (str_remove comma (comma :: t ++ _))
        with (str_remove comma (t ++ flat_map (fun t => comma :: t) groups)).
      rewrite str_remove_app, IH1, (str_remove_digits comma t eq_refl Ht).
      split; [done|]. by apply Forall_app. }
  rewrite str_remove_app, E, (str_remove_digits comma hd eq_refl Hhd).
  split_and!; [done|by apply Forall_app|].
  destruct hd; simpl in *; [lia|done].
Qed.

(** A price token holds digits and commas only. *)
Lemma price_token_chars hd groups g c :
  price_token hd groups g -> c ∈ g -> is_digit c = true \/ c = comma.
Proof.
  intros (-> & _ & Hhd & Hg). rewrite elem_of_app. intros [Hc|Hc].
  - left. unfold digits in Hhd. rewrite Forall_forall in Hhd. auto.
  - induction Hg as [|t groups [_ Ht] _ IH]; simpl in Hc;
      [by apply elem_of_nil in Hc|].
    apply elem_of_cons in Hc as [->|Hc]; [by right|].
    apply elem_of_app in Hc as [Hc|Hc]; [|auto].
    left. unfold digits in Ht. rewrite Forall_forall in Ht. auto.
Qed.

(** ** What a search with each pattern returns *)

Lemma head_In {A} (l : list A) x : head l = Some x -> In x l.
Proof. destruct l; [discriminate|]. intros [= ->]. by left. Qed.

Lemma run_cat_elim r1 r2 s g m :
  In m (run (Cat r1 r2) s g) ->
  exists m1 m2, In m1 (run r1 s g)
    /\ In m2 (run r2 (rest m1) (group1 m1)) /\ m = then_match m1 m2.
Proof.
  simpl. rewrite in_flat_map. intros (m1 & H1 & H2).
  apply in_map_iff in H2 as (m2 & <- & H2). by exists m1, m2.
Qed.

Lemma run_group_elim r s g m :
  In m (run (Group r) s g) ->
  exists m0, In m0 (run r s g)
    /\ m = RMatch (consumed m0) (Some (consumed m0)) (rest m0).
Proof.
  simpl. rewrite in_map_iff. intros (m0 & <- & H). by exists m0.
Qed.

Lemma run_lit_group c s g m : In m (run (Lit c) s g) -> group1 m = g.
Proof.
  simpl. destruct s as [|c' s]; [intros []|].
  destruct (c =? c')%N; [|intros []]. by intros [<-|[]].
Qed.

Lemma year_search line m :
  re_search year_pattern line = Some m ->
  exists y, group1 m = Some y /\ year_token y.
Proof.
  intros (_ & _ & Hh & _ & _)%re_search_Some. apply head_In in Hh.
  apply run_cat_elim in Hh as (m1 & m2 & H1 & H2 & ->).
  apply run_lit_group in H2.
  pose proof (run_sound _ _ _ _ H1) as [_ L1].
  apply run_group_elim in H1 as (m0 & H0 & ->). simpl in *.
  exists (consumed m0). split; [done|].
  invert L1. by apply (lang_times_digit 4).
Qed.

Lemma size_search line m :
  re_search size_pattern line = Some m ->
  group1 m = Some (consumed m) /\ cross_section_token (consumed m).
Proof.
  intros (_ & _ & Hh & L & _)%re_search_Some. apply head_In in Hh.
  split; [|by apply lang_size_token].
  by apply run_group_elim in Hh as (m0 & H0 & ->).
Qed.

Lemma always_opt r : always (Opt r).
Proof. intros s g. simpl. by destruct (run r s g). Qed.

Lemma always_star r : always (Star r).
Proof.
  intros s g. simpl. destruct (length s); simpl; [done|].
  by destruct (flat_map _ _).
Qed.

Lemma always_upto n r : always (UpTo n r).
Proof. destruct n; [done|apply always_opt]. Qed.

Lemma run_cat_nonempty r1 r2 s g :
  run r1 s g <> [] -> always r2 -> run (Cat r1 r2) s g <> [].
Proof.
  intros H1 H2. simpl. destruct (run r1 s g) as [|m1 ms]; [done|]. simpl.
  specialize (H2 (rest m1) (group1 m1)).
  by destruct (run r2 (rest m1) (group1 m1)).
Qed.

Lemma run_price_digit c s :
  is_digit c = true -> run price_pattern (c :: s) None <> [].
Proof.
  intros Hc. unfold price_pattern.
  assert (run (Cat (Between 1 2 Digit)
                   (Star (Cat (Lit comma) (Times 3 Digit)))) (c :: s) None
          <> []) as H.
  { apply run_cat_nonempty; [|apply always_star].
    apply run_cat_nonempty; [|apply always_upto].
    apply run_cat_nonempty; [|done]. simpl. by rewrite Hc. }
  simpl in *. by destruct (flat_map _ _).
Qed.

(** The price pattern matches at the first digit of the line. *)
Lemma price_search line m :
  re_search price_pattern line = Some m ->
  group1 m = Some (consumed m)
  /\ (exists hd groups, price_token hd groups (consumed m))
  /\ exists before, line = before ++ consumed m ++ rest m
       /\ Forall (fun c => is_digit c = false) before.
Proof.
  intros (before & -> & Hh & L & Hb)%re_search_Some. apply head_In in Hh.
  split_and!.
  - by apply run_group_elim in Hh as (m0 & H0 & ->).
  - by apply lang_price_token.
  - exists before. split; [done|].
    apply Forall_forall. intros c Hc.
    apply list_elem_of_split in Hc as (b1 & b2 & ->).
    destruct (is_digit c) eqn:E; [|done].
    exfalso. apply (run_price_digit c (b2 ++ consumed m ++ rest m) E).
    by apply (Hb b1 (c :: b2)).
Qed.

(** A pattern with a literal character does not match a line without it. *)
Lemma lang_year_nyeon s : lang year_pattern s -> In nyeon s.
Proof.
  intros H. invert H.
  match goal with H : lang (Lit _) _ |- _ => invert H end.
  apply in_app_iff. right. by left.
Qed.

Lemma lang_size_letter s : lang size_pattern s -> In letter_S s.
Proof.
  intros (n & _ & ->)%lang_size_token. apply in_app_iff. right. by left.
Qed.

Lemma re_search_lacking r c line :
  (forall s, lang r s -> In c s) -> ~ In c line -> re_search r line = None.
Proof.
  intros Hr Hc. destruct (re_search r line) as [m|] eqn:E; [|done].
  apply re_search_Some in E as (before & -> & _ & L & _).
  exfalso. apply Hc. rewrite !in_app_iff. right; left. by apply Hr.
Qed.

(** A line that is a price token is neither a year line nor a size line. *)
Lemma price_token_no_header hd groups g :
  price_token hd groups g ->
  re_search year_pattern g = None /\ re_search size_pattern g = None.
Proof.
  intros Ht. split.
  - apply (re_search_lacking _ nyeon); [apply lang_year_nyeon|].
    intros Hin%list_elem_of_In.
    destruct (price_token_chars _ _ _ _ Ht Hin) as [Hd|Hc]; [|done].
    by apply (digit_not_nyeon nyeon Hd).
  - apply (re_search_lacking _ letter_S); [apply lang_size_letter|].
    intros Hin%list_elem_of_In.
    destruct (price_token_chars _ _ _ _ Ht Hin) as [Hd|Hc]; [|done].
    by apply (digit_not_letter_S letter_S Hd).
Qed.

(** ** The scanner *)

Lemma wf_initial_state : wf_state initial_state.
Proof. split_and!; [done|done|constructor]. Qed.

Lemma year_token_int y :
  year_token y -> truthy (Some y) = true /\ exists v, py_int y = Ok v.
Proof.
  intros [Hl Hd]. destruct y as [|c y]; [done|]. split; [done|].
  destruct (py_int_digits (c :: y) Hd) as (v & Hv & _); [done| |by exists v].
  rewrite Hl. unfold int_max_str_digits. lia.
Qed.

Lemma cross_section_token_truthy s :
  cross_section_token s -> truthy (Some s) = true.
Proof.
  intros (n & Hn & ->). destruct n as [|c n]; [|done].
  destruct Hn as [[? _]|(a & b & E & _)]; [done|]. by destruct a.
Qed.

(** The scanner on a line that only the price pattern matches, with a year
    and a size at hand: the year is read, and the outcome is that of [int] on
    the run without its commas. *)
Lemma scan_line_price_match st line m y s :
  wf_state st ->
  re_search year_pattern line = None ->
  re_search size_pattern line = None ->
  re_search price_pattern line = Some m ->
  current_year st = Some y -> current_size st = Some s ->
  exists yv,
    py_int y = Ok yv
    /\ scan_line st line
       = let* v := py_int (str_remove comma (consumed m)) in
         Ok (if (0 <? v)%Z then append_record st (Row yv s v) else st).
Proof.
  intros (Hy & Hs & _) Ey Es Ep Ecy Ecs.
  destruct (price_search _ _ Ep) as (Eg & _).
  destruct (year_token_int y (Hy y Ecy)) as (Ty & yv & Eyv).
  pose proof (cross_section_token_truthy s (Hs s Ecs)) as Ts.
  exists yv. split; [done|].
  unfold scan_line. rewrite Ey, Es, Ep, Ecy, Ecs, Ty, Ts, Eg. simpl.
  destruct (py_int (str_remove comma (consumed m))) as [v|e]; simpl; [|done].
  destruct (0 <? v)%Z; [|done].
  rewrite Eyv. unfold append_record. by rewrite Ecy, Ecs.
Qed.


(** A line that the body of the loop gets through keeps [wf_state], and only
    ever adds records at the end of [cable_data]. *)
Lemma scan_line_wf st line st' :
  wf_state st -> scan_line st line = Ok st' ->
  wf_state st' /\ exists new, cable_data st' = cable_data st ++ new.
Proof.
  intros Hwf E. pose proof Hwf as (Hy & Hs & Hrows).
  destruct (re_search year_pattern line) as [ym|] eqn:Ey.
  { unfold scan_line in E. rewrite Ey in E. injection E as <-.
    split; [|exists []; simpl; by rewrite app_nil_r].
    apply year_search in Ey as (y & Ey & Hty).
    split_and!; simpl; [|done..]. intros y'. rewrite Ey. by intros [= <-]. }
  destruct (re_search size_pattern line) as [sm|] eqn:Es.
  { unfold scan_line in E. rewrite Ey, Es in E. injection E as <-.
    split; [|exists []; simpl; by rewrite app_nil_r].
    apply size_search in Es as (Es & Hts).
    split_and!; simpl; [done| |done]. intros s'. rewrite Es. by intros [= <-]. }
  destruct (re_search price_pattern line) as [pm|] eqn:Ep.
  2:{ unfold scan_line in E. rewrite Ey, Es, Ep in E. injection E as <-.
      split; [done|]. exists []. by rewrite app_nil_r. }
  destruct (current_year st) as [y|] eqn:Ecy.
  2:{ unfold scan_line in E. rewrite Ey, Es, Ep, Ecy in E. injection E as <-.
      split; [done|]. exists []. by rewrite app_nil_r. }
  destruct (current_size st) as [s|] eqn:Ecs.
  2:{ unfold scan_line in E. rewrite Ey, Es, Ep, Ecy, Ecs in E.
      injection E as <-. split; [done|]. exists []. by rewrite app_nil_r. }
  destruct (scan_line_price_match st line pm y s Hwf Ey Es Ep Ecy Ecs)
    as (yv & _ & E').
  rewrite E' in E.
  destruct (py_int (str_remove comma (consumed pm))) as [v|e]; [|done].
  simpl in E. destruct (0 <? v)%Z eqn:Ev; injection E as <-.
  - split; [|by eexists].
    destruct Hwf as (Hy' & Hs' & _). split_and!; simpl; [done..|].
    apply Forall_app. split; [done|]. constructor; [|constructor].
    split; simpl; [by apply Z.ltb_lt|by apply Hs'].
  - split; [done|]. exists []. by rewrite app_nil_r.
Qed.

Lemma scan_lines_wf_from lines : forall st st',
  wf_state st -> scan_lines st lines = Ok st' -> wf_state st'.
Proof.
  induction lines as [|line lines IH]; intros st st' Hwf E; simpl in E.
  - by injection E as <-.
  - destruct (scan_line st line) as [st1|e] eqn:E1; [|done]. simpl in E.
    apply (IH st1); [|done]. by apply (scan_line_wf st line).
Qed.

(** ** [drop_duplicates] *)

Lemma drop_duplicate_rows_elem rows : forall seen r,
  r ∈ drop_duplicate_rows seen rows <-> r ∈ rows /\ r ∉ seen.
Proof.
  induction rows as [|x rows IH]; intros seen r; simpl.
  - split; [by intros ?%elem_of_nil|by intros [?%elem_of_nil _]].
  - case_bool_decide as Hx.
    + rewrite IH, elem_of_cons. split; [tauto|].
      intros [[->|?] ?]; [contradiction|tauto].
    + rewrite !elem_of_cons, IH, elem_of_cons.
      destruct (decide (r = x)) as [->|]; tauto.
Qed.

Lemma drop_duplicate_rows_NoDup rows : forall seen,
  NoDup (drop_duplicate_rows seen rows).
Proof.
  induction rows as [|x rows IH]; intros seen; simpl; [constructor|].
  case_bool_decide; [done|]. constructor; [|done].
  rewrite drop_duplicate_rows_elem, elem_of_cons. tauto.
Qed.

Lemma drop_duplicate_rows_nonempty r rows :
  drop_duplicate_rows [] (r :: rows) <> [].
Proof. done. Qed.

(** ** The order of strings and of rows *)

Lemma str_compare_antisym a : forall b,
  str_compare b a = CompOpp (str_compare a b).
Proof.
  induction a as [|x a IH]; intros [|y b]; simpl; try done.
  rewrite (N.compare_antisym x y). destruct (x ?= y)%N; simpl; by rewrite ?IH.
Qed.

Lemma str_compare_eq a : forall b, str_compare a b = Eq -> a = b.
Proof.
  induction a as [|x a IH]; intros [|y b]; simpl; try done.
  destruct (x ?= y)%N eqn:E; try done.
  apply N.compare_eq in E as ->. by intros ->%IH.
Qed.

Lemma str_compare_refl a : str_compare a a = Eq.
Proof. induction a as [|x a IH]; simpl; [done|]. by rewrite N.compare_refl. Qed.

Lemma str_compare_lt_trans a : forall b c,
  str_compare a b = Lt -> str_compare b c = Lt -> str_compare a c = Lt.
Proof.
  induction a as [|x a IH]; intros [|y b] [|z c]; simpl; try done.
  destruct (x ?= y)%N eqn:E1; try done.
  - apply N.compare_eq in E1 as ->. destruct (y ?= z)%N; try done. apply IH.
  - destruct (y ?= z)%N eqn:E2; try done.
    + apply N.compare_eq in E2 as <-. by rewrite E1.
    + assert ((x ?= z)%N = Lt) as ->; [|done].
      apply N.compare_lt_iff in E1, E2. apply N.compare_lt_iff.
      by apply (N.lt_trans x y z).
Qed.

Lemma compare_on_antisym c a b : compare_on c b a = CompOpp (compare_on c a b).
Proof.
  destruct c; simpl;
    [apply Z.compare_antisym|apply str_compare_antisym|apply Z.compare_antisym].
Qed.

Lemma compare_on_eq c a b x :
  compare_on c a b = Eq -> compare_on c b x = compare_on c a x.
Proof.
  destruct c; simpl;
    [intros ->%Z.compare_eq|intros ->%str_compare_eq|intros ->%Z.compare_eq];
    done.
Qed.

Lemma compare_on_lt_trans c a b x :
  compare_on c a b = Lt -> compare_on c b x = Lt -> compare_on c a x = Lt.
Proof.
  destruct c; simpl; [|apply str_compare_lt_trans|];
    rewrite !Z.compare_lt_iff; lia.
Qed.

Lemma compare_by_antisym by_ a b :
  compare_by by_ b a = CompOpp (compare_by by_ a b).
Proof.
  induction by_ as [|c by_ IH]; simpl; [done|].
  rewrite (compare_on_antisym c a b). by destruct (compare_on c a b).
Qed.

Lemma compare_by_eq by_ a b x :
  compare_by by_ a b = Eq -> compare_by by_ b x = compare_by by_ a x.
Proof.
  induction by_ as [|c by_ IH]; simpl; [done|].
  destruct (compare_on c a b) eqn:E; try done.
  rewrite (compare_on_eq _ _ _ x E). intros ->%IH. done.
Qed.

Lemma compare_by_lt_trans by_ a b x :
  compare_by by_ a b = Lt -> compare_by by_ b x = Lt -> compare_by by_ a x = Lt.
Proof.
  induction by_ as [|c by_ IH]; simpl; [done|].
  destruct (compare_on c a b) eqn:E1; try done.
  - rewrite (compare_on_eq _ _ _ x E1).
    destruct (compare_on c a x); auto.
  - intros _. destruct (compare_on c b x) eqn:E2; try done.
    + assert (compare_on c x b = Eq) as E3
        by (by rewrite compare_on_antisym, E2).
      pose proof (compare_on_eq _ _ _ a E3) as E4.
      rewrite (compare_on_antisym c a b), E1 in E4.
      by rewrite (compare_on_antisym c x a), <- E4.
    + by rewrite (compare_on_lt_trans _ _ _ _ E1 E2).
Qed.

Lemma le_by_total by_ a b : le_by by_ a b \/ le_by by_ b a.
Proof.
  unfold le_by, leb_by. rewrite (compare_by_antisym by_ a b).
  destruct (compare_by by_ a b); simpl; auto.
Qed.

Lemma le_by_trans by_ a b x : le_by by_ a b -> le_by by_ b x -> le_by by_ a x.
Proof.
  unfold le_by, leb_by.
  destruct (compare_by by_ a b) eqn:E1; try done; intros _.
  - by rewrite (compare_by_eq _ _ _ x E1).
  - destruct (compare_by by_ b x) eqn:E2; try done; intros _.
    + assert (compare_by by_ x b = Eq) as E3
        by (by rewrite compare_by_antisym, E2).
      pose proof (compare_by_eq _ _ _ a E3) as E4.
      rewrite (compare_by_antisym by_ a b), E1 in E4.
      by rewrite (compare_by_antisym by_ x a), <- E4.
    + by rewrite (compare_by_lt_trans _ _ _ _ E1 E2).
Qed.

(** ** [sort_values] *)

Lemma insert_row_perm by_ a l : insert_row by_ a l ≡ₚ a :: l.
Proof.
  induction l as [|b l IH]; simpl; [done|].
  destruct (leb_by by_ a b); [done|]. rewrite IH. apply Permutation_swap.
Qed.

Lemma sort_rows_perm by_ l : sort_rows by_ l ≡ₚ l.
Proof.
  induction l as [|a l IH]; simpl; [done|].
  rewrite insert_row_perm. by constructor.
Qed.

Lemma insert_row_sorted by_ a l :
  StronglySorted (le_by by_) l -> StronglySorted (le_by by_) (insert_row by_ a l).
Proof.
  induction 1 as [|b l Hl IH Hb]; simpl; [repeat constructor|].
  destruct (leb_by by_ a b) eqn:E.
  - constructor; [by constructor|]. constructor; [done|].
    eapply Forall_impl; [exact Hb|]. intros x Hx. by eapply le_by_trans.
  - constructor; [done|]. rewrite insert_row_perm. constructor; [|done].
    destruct (le_by_total by_ a b) as [H|H]; [|done].
    unfold le_by in H. congruence.
Qed.

Lemma sort_rows_sorted by_ l : StronglySorted (le_by by_) (sort_rows by_ l).
Proof.
  induction l as [|a l IH]; simpl; [constructor|]. by apply insert_row_sorted.
Qed.

Lemma StronglySorted_weaken {A} (R1 R2 : A -> A -> Prop) l :
  (forall a b, R1 a b -> R2 a b) -> StronglySorted R1 l -> StronglySorted R2 l.
Proof.
  intros HR. induction 1 as [|a l Hl IH Ha]; constructor; [done|].
  eapply Forall_impl; [exact Ha|]. auto.
Qed.

(** ** The round trip of the price listing *)

Lemma Rpower_third_cube x :
  (0 < x)%R ->
  (0 < Rpower x (1 / 3)
   /\ Rpower x (1 / 3) * Rpower x (1 / 3) * Rpower x (1 / 3) = x)%R.
Proof.
  intros Hx. split; [apply exp_pos|].
  rewrite <- !Rpower_plus.
  replace (1 / 3 + 1 / 3 + 1 / 3)%R with 1%R by lra.
  by apply Rpower_1.
Qed.

Lemma cube_root_bounds (x y lo hi : R) :
  (0 < y)%R -> (y * y * y = x)%R ->
  (0 < lo)%R -> (lo * lo * lo < x)%R -> (x < hi * hi * hi)%R -> (0 < hi)%R ->
  (lo < y < hi)%R.
Proof.
  intros Hy Hc Hlo Hl Hh Hhi. split.
  - destruct (Rlt_le_dec lo y) as [|Hle]; [done|]. exfalso.
    assert (y * y <= lo * lo)%R by nra.
    assert (y * y * y <= lo * lo * lo)%R by nra. lra.
  - destruct (Rlt_le_dec y hi) as [|Hle]; [done|]. exfalso.
    assert (hi * hi <= y * y)%R by nra.
    assert (hi * hi * hi <= y * y * y)%R by nra. lra.
Qed.

(** C1: the six-line listing of 2020 and 2023 yields exactly the two records
    of size 2.5SQ, and the statistics of that size are a total change of 30
    per cent and an average annual change of (1.3^(1/3) - 1) * 100, which is
    9.139 to three decimals. *)
Theorem round_trip_scenario :
  load_and_process_data scenario_text = Ok (Table scenario_records)
  /\ exists total avg,
       calculate_price_changes scenario_records (lit "2.5SQ")
       = Some (total, avg)
       /\ total = 30%R
       /\ avg = ((Rpower 1.3 (1 / 3) - 1) * 100)%R
       /\ (Rabs (avg - 9.139) < 0.0005)%R.
Proof.
  split; [by vm_compute|].
  unfold calculate_price_changes.
  assert (size_data scenario_records (lit "2.5SQ") = scenario_records) as ->
    by (by vm_compute).
  simpl. eexists _, _. split; [reflexivity|].
  assert (avg_annual_change 1000 1300 (2023 - 2020)
          = ((Rpower 1.3 (1 / 3) - 1) * 100)%R) as ->.
  { unfold avg_annual_change. do 2 f_equal. f_equal; simpl; lra. }
  split_and!; [unfold total_change; lra|done|].
  destruct (Rpower_third_cube 1.3) as [Hpos Hcube]; [lra|].
  pose proof (cube_root_bounds 1.3 _ 1.091385 1.091395 Hpos Hcube) as Hb.
  apply Rabs_def1; lra.
Qed.

(** On the numpy scalars of the scenario, a column of int64, the total
    change is 30.0 itself. *)
Lemma scenario_total_change_binary64 :
  column_dtype (map price scenario_records) = Some int64
  /\ np_total_change int64 1000 1300 = 30%float.
Proof. split; vm_compute; reflexivity. Qed.

(** ** Boolean indexing is selection by a predicate *)

Lemma select_rows_filter (p : row -> bool) df :
  select_rows df (map p df) = filter (fun r => p r = true) df.
Proof.
  induction df as [|r df IH]; simpl; [done|].
  rewrite filter_cons. destruct (p r) eqn:E.
  - rewrite decide_True by done. by rewrite IH.
  - rewrite decide_False by congruence. done.
Qed.

Lemma filter_iff {A} (P Q : A -> Prop) `{!forall x, Decision (P x)}
    `{!forall x, Decision (Q x)} (l : list A) :
  (forall x, P x <-> Q x) -> filter P l = filter Q l.
Proof.
  intros HPQ. induction l as [|x l IH]; [done|].
  rewrite !filter_cons, IH.
  destruct (decide (P x)) as [HP|HP], (decide (Q x)) as [HQ|HQ];
    [done|destruct HQ; by apply HPQ|destruct HP; by apply HPQ|done].
Qed.

(** [df[df['size'] == sz]] *)
Lemma select_size_filter df sz :
  select_rows df (eq_mask (map size df) sz) = filter (fun r => size r = sz) df.
Proof.
  unfold eq_mask. rewrite map_map.
  rewrite (select_rows_filter (fun r => bool_decide (size r = sz))).
  apply filter_iff. intros r. apply bool_decide_eq_true.
Qed.

Lemma filtered_df_filter df years sizes :
  filtered_df df years sizes
  = filter (fun r => year r ∈ years /\ size r ∈ sizes) df.
Proof.
  unfold filtered_df, isin, mask_and. rewrite !map_map.
  assert (forall (f g : row -> bool) l,
    zip_with andb (map f l) (map g l) = map (fun r => f r && g r) l) as ->.
  { intros f g l. induction l as [|r l IH]; simpl; [done|]. by rewrite IH. }
  rewrite (select_rows_filter (fun r =>
    bool_decide (year r ∈ years) && bool_decide (size r ∈ sizes))).
  apply filter_iff. intros r.
  rewrite andb_true_iff, !bool_decide_eq_true. done.
Qed.

(** C7: the selection is exactly the subsequence of the records whose year is
    among the chosen years and whose size is among the chosen sizes, in the
    order of the record set; an empty choice of years or of sizes selects
    nothing. *)
Theorem filter_is_subsequence (df : list row) (years : list Z)
    (sizes : list str) :
  filtered_df df years sizes
  = filter (fun r => year r ∈ years /\ size r ∈ sizes) df
  /\ filtered_df df years sizes `sublist_of` df
  /\ (forall r, r ∈ filtered_df df years sizes
                <-> r ∈ df /\ year r ∈ years /\ size r ∈ sizes)
  /\ filtered_df df [] sizes = []
  /\ filtered_df df years [] = [].
Proof.
  rewrite !filtered_df_filter. split_and!.
  - done.
  - apply sublist_filter.
  - intros r. rewrite list_elem_of_filter. tauto.
  - induction df as [|r df IH]; [done|].
    rewrite filter_cons, decide_False; [done|].
    intros [H%elem_of_nil _]. done.
  - induction df as [|r df IH]; [done|].
    rewrite filter_cons, decide_False; [done|].
    intros [_ H%elem_of_nil]. done.
Qed.

(** ** The ends of a size's history *)

Lemma le_by_year a b : le_by [year_col] a b <-> (year a <= year b)%Z.
Proof.
  unfold le_by, leb_by. simpl.
  destruct (Z.compare_spec (year a) (year b)); split; try done; lia.
Qed.

Lemma sorted_year_head f l :
  StronglySorted (le_by [year_col]) (f :: l) ->
  forall r, r ∈ f :: l -> (year f <= year r)%Z.
Proof.
  intros H r. invert H. rewrite elem_of_cons. intros [->|Hr]; [lia|].
  apply le_by_year.
  match goal with H : Forall _ l |- _ => rewrite Forall_forall in H end. auto.
Qed.

Lemma sorted_year_last l z :
  StronglySorted (le_by [year_col]) l -> last l = Some z ->
  forall r, r ∈ l -> (year r <= year z)%Z.
Proof.
  induction 1 as [|a l Hl IH Ha]; [done|].
  destruct l as [|b l]; simpl.
  - intros [= <-] r. rewrite elem_of_cons. intros [->|[]%elem_of_nil]. lia.
  - intros Hz r. rewrite elem_of_cons. intros [->|Hr]; [|by apply IH].
    apply le_by_year. rewrite Forall_forall in Ha. apply Ha.
    by apply last_Some_elem_of.
Qed.

(** The rows of one size, by year: they are the records of that size, the
    first has the least year and the last the greatest. *)
Lemma size_data_elem df sz r :
  r ∈ size_data df sz <-> r ∈ df /\ size r = sz.
Proof.
  unfold size_data. rewrite sort_rows_perm, select_size_filter.
  rewrite list_elem_of_filter. tauto.
Qed.

Lemma size_data_ends df sz f l :
  size_data df sz = f :: l ->
  exists z, last (f :: l) = Some z
    /\ (f ∈ df /\ size f = sz) /\ (z ∈ df /\ size z = sz)
    /\ forall r, r ∈ df -> size r = sz -> (year f <= year r <= year z)%Z.
Proof.
  intros E.
  assert (StronglySorted (le_by [year_col]) (f :: l)) as Hs
    by (rewrite <- E; apply sort_rows_sorted).
  destruct (last (f :: l)) as [z|] eqn:Ez; [|by apply last_None in Ez].
  exists z. split; [done|]. split; [|split].
  - apply size_data_elem. rewrite E. by left.
  - apply size_data_elem. rewrite E. by apply last_Some_elem_of.
  - intros r Hr Hsz.
    assert (r ∈ f :: l) as Hin by (rewrite <- E; by apply size_data_elem).
    split; [by apply (sorted_year_head f l)|by apply (sorted_year_last (f :: l))].
Qed.

(** [calculate_price_changes] in terms of the ends. *)
Lemma calculate_price_changes_ends df sz f l z :
  size_data df sz = f :: l -> last (f :: l) = Some z ->
  calculate_price_changes df sz
  = if (0 <? year z - year f)%Z
    then Some (total_change (price f) (price z),
               avg_annual_change (price f) (price z) (year z - year f))
    else None.
Proof.
  intros E Ez. unfold calculate_price_changes. rewrite E, Ez.
  destruct l as [|b l]; [|done].
  injection Ez as <-. by rewrite Z.sub_diag.
Qed.

Lemma calculate_price_changes_no_data df sz :
  size_data df sz = [] -> calculate_price_changes df sz = None.
Proof. intros E. unfold calculate_price_changes. by rewrite E. Qed.

(** ** The statistics on numpy scalars *)

(** The difference of two scalars is the difference of the integers when the
    type holds it. *)
Lemma np_subtract_int64 a b :
  (- 2 ^ 63 <= a - b < 2 ^ 63)%Z -> np_subtract int64 a b = (a - b)%Z.
Proof.
  intros H. unfold np_subtract, np_wrap.
  rewrite Z.mod_small by lia. lia.
Qed.

Lemma np_subtract_uint64 a b :
  (0 <= b <= a)%Z -> (a < 2 ^ 64)%Z -> np_subtract uint64 a b = (a - b)%Z.
Proof.
  intros H1 H2. unfold np_subtract, np_wrap. apply Z.mod_small. lia.
Qed.

(** In a column of unsigned integers a price that went down gives a
    difference that is too large by 2^64. *)
Lemma np_subtract_uint64_wraps a b :
  (0 <= a < b)%Z -> (b < 2 ^ 64)%Z ->
  np_subtract uint64 a b = (a - b + 2 ^ 64)%Z.
Proof.
  intros H1 H2. unfold np_subtract, np_wrap.
  rewrite <- (Z_mod_plus_full (a - b) 1 (2 ^ 64)).
  rewrite Z.mod_small by lia. lia.
Qed.

(** In a column of int64 the total change is the formula in binary64
    arithmetic, on the exact difference of the prices. *)
Lemma np_total_change_int64 p0 p1 :
  (0 <= p0 < 2 ^ 63)%Z -> (0 <= p1 < 2 ^ 63)%Z ->
  np_total_change int64 p0 p1
  = (float_of_int (p1 - p0) / float_of_int p0 * float_of_int 100)%float.
Proof.
  intros H0 H1. unfold np_total_change. by rewrite np_subtract_int64 by lia.
Qed.

(** With years of four digits, the statistics on numpy scalars are absent
    exactly when those over the real numbers are. *)
Lemma np_calculate_price_changes_absent np_power dt df sz :
  Forall (fun r => (0 <= year r <= 9999)%Z) df ->
  np_calculate_price_changes np_power dt df sz = None
  <-> calculate_price_changes df sz = None.
Proof.
  intros Hy. rewrite Forall_forall in Hy.
  unfold np_calculate_price_changes, calculate_price_changes.
  destruct (2 <=? length (size_data df sz))%nat; [|done].
  destruct (head (size_data df sz)) as [f|] eqn:Ef; [|done].
  destruct (last (size_data df sz)) as [z|] eqn:Ez; [|done].
  apply head_Some_elem_of, size_data_elem in Ef as [Hf _].
  apply last_Some_elem_of, size_data_elem in Ez as [Hz _].
  pose proof (Hy f Hf). pose proof (Hy z Hz).
  rewrite np_subtract_int64 by lia.
  by destruct (0 <? year z - year f)%Z.
Qed.

(** C2 (the code departs from it): the listing with the price 2^63 in 2020
    and the price 1 in 2021 yields these two records, in a price column of
    unsigned 64-bit integers, and the page selects them both at first.  The
    difference 1 - 2^63 of the two prices wraps around to 2^63 + 1, and the
    total change that the function returns is +100.0, where the formula
    (p1 - p0) / p0 * 100 is below -99 over the real numbers and -100.0 in
    binary64 arithmetic. *)
Theorem change_stats_wraps (np_power : float -> float -> float) :
  load_and_process_data overflow_text = Ok (Table overflow_records)
  /\ column_dtype (map price overflow_records) = Some uint64
  /\ filtered_df overflow_records (available_years overflow_records)
       (default_sizes overflow_records) = overflow_records
  /\ np_subtract uint64 1 (2 ^ 63) = (2 ^ 63 + 1)%Z
  /\ np_calculate_price_changes np_power uint64 overflow_records
       (lit "2.5SQ")
     = Some (100%float, np_avg_annual_change np_power (2 ^ 63) 1 1)
  /\ (total_change (2 ^ 63) 1 < -99)%R
  /\ (float_of_int (1 - 2 ^ 63) / float_of_int (2 ^ 63)
      * float_of_int 100)%float = (-100)%float.
Proof.
  split_and!; try (vm_compute; reflexivity).
  unfold total_change.
  assert (100 < IZR (2 ^ 63))%R as Hx by (apply IZR_lt; reflexivity).
  set (x := IZR (2 ^ 63)) in *.
  assert (0 < / x)%R as Hinv by (apply Rinv_0_lt_compat; lra).
  assert (/ x * x = 1)%R as Hone by (field; lra).
  unfold Rdiv. nra.
Qed.

(** ** When there are no statistics *)

Lemma years_of_elem df sz y :
  y ∈ years_of df sz <-> exists r, r ∈ df /\ size r = sz /\ year r = y.
Proof.
  unfold years_of. change (map year ?l) with (year <$> l).
  rewrite list_elem_of_fmap. split.
  - intros (r & -> & Hr). apply list_elem_of_filter in Hr as [? ?]. eauto.
  - intros (r & Hr & Hs & <-). exists r. split; [done|].
    by apply list_elem_of_filter.
Qed.

Lemma few_distinct (ys : list Z) :
  (length (remove_dups ys) < 2)%nat
  <-> forall a b, a ∈ ys -> b ∈ ys -> a = b.
Proof.
  split.
  - intros Hlen a b Ha Hb.
    apply elem_of_remove_dups in Ha, Hb.
    destruct (remove_dups ys) as [|c [|d l]]; simpl in Hlen; [|..|lia].
    + by apply elem_of_nil in Ha.
    + apply list_elem_of_singleton in Ha, Hb. congruence.
  - intros Heq. pose proof (NoDup_remove_dups ys) as Hnd.
    destruct (remove_dups ys) as [|c [|d l]] eqn:E; simpl; [lia..|].
    exfalso. assert (c = d) as ->.
    { apply Heq; apply elem_of_remove_dups; rewrite E.
      - apply list_elem_of_here.
      - apply list_elem_of_further, list_elem_of_here. }
    apply NoDup_cons in Hnd as [Hnd _]. apply Hnd, list_elem_of_here.
Qed.

Lemma foldr_max_spec y ys :
  foldr Z.max y ys ∈ y :: ys
  /\ forall x, x ∈ y :: ys -> (x <= foldr Z.max y ys)%Z.
Proof.
  induction ys as [|a ys [IH1 IH2]]; simpl.
  - split; [apply list_elem_of_here|].
    intros x ->%list_elem_of_singleton. lia.
  - split.
    + destruct (Z.max_spec a (foldr Z.max y ys)) as [[_ ->]|[_ ->]].
      * apply elem_of_cons in IH1 as [->|?];
          [apply list_elem_of_here|by do 2 apply list_elem_of_further].
      * apply list_elem_of_further, list_elem_of_here.
    + intros x. rewrite !elem_of_cons. intros [->|[->|Hx]].
      * specialize (IH2 y (list_elem_of_here _ _)). lia.
      * lia.
      * specialize (IH2 x (list_elem_of_further _ _ _ Hx)). lia.
Qed.

Lemma foldr_min_spec y ys :
  foldr Z.min y ys ∈ y :: ys
  /\ forall x, x ∈ y :: ys -> (foldr Z.min y ys <= x)%Z.
Proof.
  induction ys as [|a ys [IH1 IH2]]; simpl.
  - split; [apply list_elem_of_here|].
    intros x ->%list_elem_of_singleton. lia.
  - split.
    + destruct (Z.min_spec a (foldr Z.min y ys)) as [[_ ->]|[_ ->]].
      * apply list_elem_of_further, list_elem_of_here.
      * apply elem_of_cons in IH1 as [->|?];
          [apply list_elem_of_here|by do 2 apply list_elem_of_further].
    + intros x. rewrite !elem_of_cons. intros [->|[->|Hx]].
      * specialize (IH2 y (list_elem_of_here _ _)). lia.
      * lia.
      * specialize (IH2 x (list_elem_of_further _ _ _ Hx)). lia.
Qed.

Lemma year_span_spec ys d :
  year_span ys = Some d ->
  exists lo hi, lo ∈ ys /\ hi ∈ ys /\ d = (hi - lo)%Z
    /\ forall y, y ∈ ys -> (lo <= y <= hi)%Z.
Proof.
  destruct ys as [|y ys]; simpl; [done|]. intros [= <-].
  destruct (foldr_max_spec y ys) as [Hmax1 Hmax2].
  destruct (foldr_min_spec y ys) as [Hmin1 Hmin2].
  exists (foldr Z.min y ys), (foldr Z.max y ys).
  split_and!; [done..|]. intros x Hx. split; auto.
Qed.

(** C3: the statistics of a size are absent exactly when the record set has
    records of that size in fewer than two distinct years, or the span from
    the first to the last of its years is zero.  Absence is a value of the
    function ([None]), not an exception. *)
Theorem change_stats_absent (df : list row) (sz : str) :
  calculate_price_changes df sz = None
  <-> (length (remove_dups (years_of df sz)) < 2)%nat
      \/ year_span (years_of df sz) = Some 0%Z.
Proof.
  destruct (size_data df sz) as [|f l] eqn:E.
  - rewrite calculate_price_changes_no_data by done. split; [intros _|done].
    left. apply few_distinct. intros a b (r & Hr & Hs & _)%years_of_elem _.
    assert (r ∈ size_data df sz) as Hin by (by apply size_data_elem).
    rewrite E in Hin. by apply elem_of_nil in Hin.
  - destruct (size_data_ends df sz f l E) as (z & Ez & Hf & Hz & Hends).
    rewrite (calculate_price_changes_ends df sz f l z E Ez).
    assert (year f ∈ years_of df sz) as Hyf
      by (apply years_of_elem; exists f; tauto).
    assert (year z ∈ years_of df sz) as Hyz
      by (apply years_of_elem; exists z; tauto).
    split.
    + intros Hnone. left. apply few_distinct.
      destruct (0 <? year z - year f)%Z eqn:Elt; [discriminate|].
      apply Z.ltb_ge in Elt.
      intros a b (ra & Hra & Hsa & <-)%years_of_elem
                 (rb & Hrb & Hsb & <-)%years_of_elem.
      pose proof (Hends ra Hra Hsa). pose proof (Hends rb Hrb Hsb). lia.
    + intros [Hfew|Hspan].
      * rewrite few_distinct in Hfew.
        by rewrite (Hfew _ _ Hyz Hyf), Z.sub_diag.
      * apply year_span_spec in Hspan as (lo & hi & _ & _ & Hd & Hb).
        pose proof (Hb _ Hyf). pose proof (Hb _ Hyz).
        assert (year z - year f = 0)%Z as -> by lia. done.
Qed.

(** ** The outcome of [load_and_process_data] *)

Lemma scan_lines_wf lines st :
  scan_lines initial_state lines = Ok st -> wf_state st.
Proof. apply scan_lines_wf_from, wf_initial_state. Qed.

(** An exception of the scan is that of the function.  What follows the scan
    raises KeyError when the scan found no record, and returns the records
    without duplicates and in order otherwise. *)
Lemma load_and_process_data_outcome text :
  load_and_process_data text
  = match scan_lines initial_state (str_split newline text) with
    | Raise e => Raise e
    | Ok st =>
        match cable_data st with
        | [] => Raise KeyError
        | _ :: _ =>
            Ok (Table (sort_rows [year_col; size_col]
                         (drop_duplicate_rows [] (cable_data st))))
        end
    end.
Proof.
  unfold load_and_process_data.
  destruct (scan_lines initial_state (str_split newline text)) as [st|e];
    simpl; [|done].
  by destruct (cable_data st).
Qed.

Lemma load_and_process_data_rows text rows :
  load_and_process_data text = Ok (Table rows) ->
  exists st,
    scan_lines initial_state (str_split newline text) = Ok st
    /\ wf_state st
    /\ rows = sort_rows [year_col; size_col]
                (drop_duplicate_rows [] (cable_data st)).
Proof.
  rewrite load_and_process_data_outcome.
  destruct (scan_lines initial_state (str_split newline text)) as [st|e] eqn:E;
    [|done].
  destruct (cable_data st) eqn:Ed; [done|]. intros [= <-].
  exists st. split; [done|]. split; [by apply (scan_lines_wf _ _ E)|].
  by rewrite Ed.
Qed.

(** C4 (the code departs from it): on the empty text, and on a text that no
    pattern matches, the scan finds no record, the frame built from the empty
    list has no columns, and sorting it by year and size raises KeyError. *)
Theorem extract_without_records_raises :
  load_and_process_data [] = Raise KeyError
  /\ load_and_process_data (lit "no price listed") = Raise KeyError.
Proof. split; by vm_compute. Qed.

(** A frame that is returned has a row: there is no empty record set. *)
Lemma load_and_process_data_nonempty text df :
  load_and_process_data text = Ok df -> exists r rows, df = Table (r :: rows).
Proof.
  rewrite load_and_process_data_outcome.
  destruct (scan_lines initial_state (str_split newline text)) as [st|e];
    [|done].
  destruct (cable_data st) as [|r data] eqn:E; [done|].
  pose proof (sort_rows_perm [year_col; size_col]
                (drop_duplicate_rows [] (r :: data))) as Hp.
  destruct (sort_rows [year_col; size_col]
              (drop_duplicate_rows [] (r :: data))) as [|r' rows'].
  - by apply Permutation_nil in Hp.
  - intros [= <-]. by eexists _, _.
Qed.

(** ** The order of the record set *)

Lemma le_by_year_size a b : le_by [year_col; size_col] a b -> row_le a b.
Proof.
  unfold le_by, leb_by, row_le. simpl.
  destruct (Z.compare_spec (year a) (year b)) as [Hy|Hy|Hy]; [|by left|done].
  intros Hs. right. split; [done|].
  by destruct (str_compare (size a) (size b)).
Qed.

(** C8: the record set that [load_and_process_data] returns has no two equal
    records, and is in ascending order of year, records of one year in
    ascending order of their size as a string. *)
Theorem extract_deduplicated_sorted (text : str) (rows : list row) :
  load_and_process_data text = Ok (Table rows) ->
  NoDup rows /\ StronglySorted row_le rows
  /\ exists st, scan_lines initial_state (str_split newline text) = Ok st
       /\ forall r, r ∈ rows <-> r ∈ cable_data st.
Proof.
  intros (st & E & _ & ->)%load_and_process_data_rows. split_and!.
  - rewrite sort_rows_perm. apply drop_duplicate_rows_NoDup.
  - eapply StronglySorted_weaken; [apply le_by_year_size|].
    apply sort_rows_sorted.
  - exists st. split; [done|]. intros r.
    rewrite sort_rows_perm, drop_duplicate_rows_elem.
    split; [tauto|]. intros Hr. split; [done|]. by intros ?%elem_of_nil.
Qed.

Lemma extract_deduplicated_sorted_witness :
  NoDup scenario_records /\ StronglySorted row_le scenario_records
  /\ exists st,
       scan_lines initial_state (str_split newline scenario_text) = Ok st
       /\ forall r, r ∈ scenario_records <-> r ∈ cable_data st.
Proof.
  apply (extract_deduplicated_sorted scenario_text). by vm_compute.
Defined.

(** ** The first way of matching *)

Lemma re_search_first r line m :
  first_match r line None = Some m -> re_search r line = Some m.
Proof.
  unfold first_match. intros H.
  destruct line; simpl; by destruct (run r _ None); simplify_eq/=.
Qed.

Lemma first_eps s g : first_match Eps s g = Some (RMatch [] g s).
Proof. done. Qed.

Lemma first_digit c s g :
  is_digit c = true -> first_match Digit (c :: s) g = Some (RMatch [c] g s).
Proof. unfold first_match. simpl. by intros ->. Qed.

Lemma first_lit c s g :
  first_match (Lit c) (c :: s) g = Some (RMatch [c] g s).
Proof. unfold first_match. simpl. by rewrite N.eqb_refl. Qed.

Lemma first_cat r1 r2 s g m1 m2 :
  first_match r1 s g = Some m1 ->
  first_match r2 (rest m1) (group1 m1) = Some m2 ->
  first_match (Cat r1 r2) s g = Some (then_match m1 m2).
Proof.
  unfold first_match. simpl.
  destruct (run r1 s g) as [|m ms]; [done|]. intros [= ->]. simpl.
  destruct (run r2 (rest m1) (group1 m1)) as [|m ms']; [done|].
  by intros [= ->].
Qed.

Lemma first_opt r s g m :
  first_match r s g = Some m -> first_match (Opt r) s g = Some m.
Proof.
  unfold first_match. simpl. destruct (run r s g); [done|]. by intros [= ->].
Qed.

Lemma first_opt_skip r s g :
  run r s g = [] -> first_match (Opt r) s g = Some (RMatch [] g s).
Proof. unfold first_match. simpl. by intros ->. Qed.

Lemma first_group r s g m :
  first_match r s g = Some m ->
  first_match (Group r) s g
  = Some (RMatch (consumed m) (Some (consumed m)) (rest m)).
Proof.
  unfold first_match. simpl. destruct (run r s g); [done|]. by intros [= ->].
Qed.

Lemma first_star_stop r s g :
  run r s g = [] -> first_match (Star r) s g = Some (RMatch [] g s).
Proof.
  unfold first_match. simpl. intros H.
  destruct (length s); simpl; [done|]. by rewrite H.
Qed.

Lemma run_cat_nil r1 r2 s g : run r1 s g = [] -> run (Cat r1 r2) s g = [].
Proof. simpl. by intros ->. Qed.

Lemma run_digit_nil c s g : is_digit c = false -> run Digit (c :: s) g = [].
Proof. simpl. by intros ->. Qed.

Lemma run_lit_nil c c' s g : c <> c' -> run (Lit c) (c' :: s) g = [].
Proof. simpl. intros H. by destruct (N.eqb_spec c c'). Qed.

Lemma first_match_search r before s m :
  first_match r s None = Some m ->
  exists m', re_search r (before ++ s) = Some m'.
Proof.
  intros H. destruct (re_search r (before ++ s)) as [m'|] eqn:E; [eauto|].
  pose proof (re_search_None _ _ E before s eq_refl) as Hnil.
  unfold first_match in H. by rewrite Hnil in H.
Qed.

(** The search finds the match at [s] when the pattern matches nowhere in
    the text before it. *)
Lemma re_search_at r before s m :
  (forall b1 b2, before = b1 ++ b2 -> b2 <> [] -> run r (b2 ++ s) None = []) ->
  first_match r s None = Some m ->
  re_search r (before ++ s) = Some m.
Proof.
  induction before as [|c before IH]; intros Hb Hm.
  - by apply re_search_first.
  - assert (run r (c :: before ++ s) None = []) as H0
      by (by apply (Hb [] (c :: before))).
    simpl. rewrite H0.
    apply IH; [|done]. intros b1 b2 -> Hne. by apply (Hb (c :: b1) b2).
Qed.

Lemma flat_map_eq_in {A B} (f g : A -> list B) l :
  (forall x, In x l -> f x = g x) -> flat_map f l = flat_map g l.
Proof.
  induction l as [|x l IH]; simpl; intros H; [done|].
  rewrite (H x) by (by left). rewrite IH; [done|]. intros y Hy. apply H.
  by right.
Qed.

Lemma flat_map_nil {A B} (l : list A) :
  flat_map (fun _ => @nil B) l = [].
Proof. by induction l. Qed.

Lemma star_run_nil step n g :
  (forall s g m, In m (step s g) -> s = consumed m ++ rest m) ->
  star_run step n [] g = [RMatch [] g []].
Proof.
  intros Hstep. destruct n as [|n]; simpl; [done|].
  rewrite (flat_map_eq_in _ (fun _ => [])), flat_map_nil; [done|].
  intros m Hm. apply Hstep in Hm. symmetry in Hm.
  apply app_eq_nil in Hm as [-> _]. done.
Qed.

(** More fuel than the length of the string changes nothing. *)
Lemma star_run_fuel step :
  (forall s g m, In m (step s g) -> s = consumed m ++ rest m) ->
  forall n k s g, (length s <= n)%nat -> (length s <= k)%nat ->
    star_run step n s g = star_run step k s g.
Proof.
  intros Hstep. induction n as [|n IH]; intros k s g Hn Hk.
  - destruct s; [|simpl in Hn; lia]. by rewrite !star_run_nil.
  - destruct s as [|c s]; [by rewrite !star_run_nil|].
    destruct k as [|k]; [simpl in Hk; lia|]. simpl. f_equal.
    apply flat_map_eq_in. intros m Hm. apply Hstep in Hm.
    destruct (consumed m) as [|c' cs]; [done|]. f_equal.
    assert (length (c :: s) = length ((c' :: cs) ++ rest m)) as Hlen
      by (by rewrite Hm).
    rewrite length_app in Hlen. simpl in Hlen, Hn, Hk. apply IH; lia.
Qed.

Lemma first_star_more r s g m1 m2 :
  first_match r s g = Some m1 -> consumed m1 <> [] ->
  first_match (Star r) (rest m1) (group1 m1) = Some m2 ->
  first_match (Star r) s g = Some (then_match m1 m2).
Proof.
  unfold first_match. simpl. intros H1 Hne H2.
  destruct (run r s g) as [|m ms] eqn:E; [done|]. injection H1 as ->.
  assert (In m1 (run r s g)) as [Hs _]%run_sound by (rewrite E; by left).
  assert (forall s g m, In m (run r s g) -> s = consumed m ++ rest m) as Hstep
    by (intros s0 g0 m Hm; by apply run_sound in Hm as [? _]).
  assert (length s = length (consumed m1 ++ rest m1)) as Hlen by (by rewrite <- Hs).
  rewrite length_app in Hlen.
  destruct (length s) as [|n] eqn:En.
  { destruct (consumed m1); [done|simpl in Hlen; lia]. }
  simpl. rewrite E. simpl.
  destruct (consumed m1) as [|c cs] eqn:Ec; [done|].
  rewrite (star_run_fuel _ Hstep n (length (rest m1)))
    by (simpl in Hlen; lia).
  destruct (star_run (run r) (length (rest m1)) (rest m1) (group1 m1));
    [done|]. simpl in *. by injection H2 as ->.
Qed.

(** ** The first grouped run of a line *)

Lemma starts_digit_run s g : starts_digit s = false -> run Digit s g = [].
Proof. destruct s as [|c s]; [done|]. simpl. by intros ->. Qed.

Lemma starts_group_run s g :
  starts_group s = false -> run (Cat (Lit comma) (Times 3 Digit)) s g = [].
Proof.
  intros H. destruct s as [|c s]; [done|].
  destruct (N.eqb_spec comma c) as [<-|Hc];
    [|by apply run_cat_nil, run_lit_nil].
  destruct s as [|d1 [|d2 [|d3 s]]]; cbn -[N.eqb] in *;
    rewrite ?N.eqb_refl in *; cbn -[N.eqb] in *;
    repeat (match goal with
            | |- context [is_digit ?d] => destruct (is_digit d) eqn:?
            end; cbn -[N.eqb] in * );
    done.
Qed.

(** The price pattern matches at digits only. *)
Lemma run_price_nondigit c s :
  is_digit c = false -> run price_pattern (c :: s) None = [].
Proof.
  intros Hc.
  assert (run (Cat (Between 1 2 Digit)
                   (Star (Cat (Lit comma) (Times 3 Digit)))) (c :: s) None
          = []) as H
    by (by apply run_cat_nil, run_cat_nil, run_cat_nil, run_digit_nil).
  unfold price_pattern. simpl in *. by rewrite H.
Qed.

(** The pattern \d{1,3} takes three digits, or all the digits there are. *)
Lemma first_price_head hd s :
  (1 <= length hd <= 3)%nat -> digits hd ->
  length hd = 3%nat \/ starts_digit s = false ->
  first_match (Between 1 2 Digit) (hd ++ s) None = Some (RMatch hd None s).
Proof.
  intros Hlen Hd Hs. unfold digits in Hd.
  destruct hd as [|a [|b [|c [|? ?]]]]; simpl in Hlen; try lia;
    rewrite !Forall_cons in Hd.
  - destruct Hd as (Ha & _). destruct Hs as [Hs|Hs]; [simpl in Hs; lia|].
    eassert (first_match (Between 1 2 Digit) ([a] ++ s) None = Some _) as H.
    { eapply first_cat.
      - eapply first_cat; [by apply first_digit|apply first_eps].
      - apply first_opt_skip, run_cat_nil. by apply starts_digit_run. }
    exact H.
  - destruct Hd as (Ha & Hb & _). destruct Hs as [Hs|Hs]; [simpl in Hs; lia|].
    eassert (first_match (Between 1 2 Digit) ([a; b] ++ s) None = Some _)
      as H.
    { eapply first_cat.
      - eapply first_cat; [by apply first_digit|apply first_eps].
      - eapply first_opt, first_cat; [by apply first_digit|].
        apply first_opt_skip, run_cat_nil. by apply starts_digit_run. }
    exact H.
  - destruct Hd as (Ha & Hb & Hc & _).
    eassert (first_match (Between 1 2 Digit) ([a; b; c] ++ s) None = Some _)
      as H.
    { eapply first_cat.
      - eapply first_cat; [by apply first_digit|apply first_eps].
      - eapply first_opt, first_cat; [by apply first_digit|].
        eapply first_opt, first_cat; [by apply first_digit|apply first_eps]. }
    exact H.
Qed.

(** The groups are taken one after the other, as long as there is one. *)
Lemma first_price_groups groups after :
  Forall (fun t => length t = 3%nat /\ digits t) groups ->
  starts_group after = false ->
  first_match (Star (Cat (Lit comma) (Times 3 Digit)))
    (flat_map (fun t => comma :: t) groups ++ after) None
  = Some (RMatch (flat_map (fun t => comma :: t) groups) None after).
Proof.
  intros Hg Hafter. induction Hg as [|t groups [Hlen Hd] _ IH]; simpl.
  - by apply first_star_stop, starts_group_run.
  - destruct t as [|x [|y [|z [|? ?]]]]; simpl in Hlen; try lia.
    unfold digits in Hd. rewrite !Forall_cons in Hd.
    destruct Hd as (Hx & Hy & Hz & _).
    set (s := flat_map (fun t => comma :: t) groups ++ after) in *.
    eassert (first_match (Cat (Lit comma) (Times 3 Digit))
               (comma :: x :: y :: z :: s) None = Some _) as Hone.
    { eapply first_cat; [apply first_lit|].
      repeat (eapply first_cat; [by apply first_digit|]). apply first_eps. }
    eassert (first_match (Star (Cat (Lit comma) (Times 3 Digit)))
               (comma :: x :: y :: z :: s) None = Some _) as H.
    { eapply first_star_more; [exact Hone|done|exact IH]. }
    exact H.
Qed.

(** The search with the price pattern returns the first grouped run of the
    line, whole. *)
Lemma first_run_search line before hd groups after :
  first_run line before hd groups after ->
  re_search price_pattern line
  = Some (RMatch (hd ++ flat_map (fun t => comma :: t) groups)
            (Some (hd ++ flat_map (fun t => comma :: t) groups)) after).
Proof.
  intros (-> & Hb & Hlen & Hhd & Hg & Hmax & Hno).
  apply re_search_at.
  - intros b1 b2 -> Hne. destruct b2 as [|c b2]; [done|].
    apply Forall_app in Hb as [_ Hb]. apply Forall_cons in Hb as [Hc _].
    by apply run_price_nondigit.
  - rewrite <- app_assoc.
    pose proof (first_price_groups groups after Hg Hno) as Hgroups.
    pose proof (first_price_head hd _ Hlen Hhd Hmax) as Hhead.
    unfold price_pattern.
    by rewrite (first_group _ _ _ _ (first_cat _ _ _ _ _ _ Hhead Hgroups)).
Qed.

(** Every line with a digit has a first grouped run. *)
Lemma first_digit_split line c :
  c ∈ line -> is_digit c = true ->
  exists before d s,
    line = before ++ d :: s
    /\ Forall (fun c => is_digit c = false) before /\ is_digit d = true.
Proof.
  induction line as [|x line IH]; [by intros ?%elem_of_nil|].
  intros Hc Hd. destruct (is_digit x) eqn:Ex.
  - exists [], x, line. split; [done|]. split; [constructor|done].
  - apply elem_of_cons in Hc as [->|Hc]; [congruence|].
    destruct (IH Hc Hd) as (before & d & s & -> & Hb & Hd').
    exists (x :: before), d, s. split; [done|]. split; [by constructor|done].
Qed.

Lemma first_run_head d s :
  is_digit d = true ->
  exists hd s',
    d :: s = hd ++ s' /\ (1 <= length hd <= 3)%nat /\ digits hd
    /\ (length hd = 3%nat \/ starts_digit s' = false).
Proof.
  intros Hd. destruct s as [|d2 s2].
  { exists [d], []. split; [done|]. split; [simpl; lia|].
    split; [by repeat constructor|by right]. }
  destruct (is_digit d2) eqn:E2.
  2:{ exists [d], (d2 :: s2). split; [done|]. split; [simpl; lia|].
      split; [by repeat constructor|by right]. }
  destruct s2 as [|d3 s3].
  { exists [d; d2], []. split; [done|]. split; [simpl; lia|].
    split; [by repeat constructor|by right]. }
  destruct (is_digit d3) eqn:E3.
  - exists [d; d2; d3], s3. split; [done|]. split; [simpl; lia|].
    split; [by repeat constructor|by left].
  - exists [d; d2], (d3 :: s3). split; [done|]. split; [simpl; lia|].
    split; [by repeat constructor|by right].
Qed.

Lemma first_run_groups n : forall s,
  (length s <= n)%nat ->
  exists groups after,
    s = flat_map (fun t => comma :: t) groups ++ after
    /\ Forall (fun t => length t = 3%nat /\ digits t) groups
    /\ starts_group after = false.
Proof.
  induction n as [|n IH]; intros s Hn.
  - destruct s; [|simpl in Hn; lia]. by exists [], [].
  - destruct (starts_group s) eqn:E; [|by exists [], s].
    destruct s as [|c [|d1 [|d2 [|d3 s']]]]; try done.
    unfold starts_group in E. rewrite !andb_true_iff in E.
    destruct E as [[[Ec E1] E2] E3]. apply N.eqb_eq in Ec as <-.
    destruct (IH s') as (groups & after & -> & Hg & Hno);
      [simpl in Hn; lia|].
    exists ([d1; d2; d3] :: groups), after. split; [done|]. split; [|done].
    constructor; [|done]. split; [done|]. by repeat constructor.
Qed.

Lemma first_run_exists line c :
  c ∈ line -> is_digit c = true ->
  exists before hd groups after, first_run line before hd groups after.
Proof.
  intros Hc Hd.
  destruct (first_digit_split line c Hc Hd) as (before & d & s & -> & Hb & Hd').
  destruct (first_run_head d s Hd') as (hd & s' & E & Hlen & Hhd & Hmax).
  destruct (first_run_groups (length s') s' (le_n _))
    as (groups & after & -> & Hg & Hno).
  exists before, hd, groups, after. unfold first_run.
  rewrite E, <- app_assoc. done.
Qed.

(** On a run of four digits or more the price pattern takes the first three:
    it reads up to three digits, and goes on only after a comma. *)
Lemma price_search_digit_run d1 d2 d3 d4 ds :
  digits [d1; d2; d3; d4] ->
  re_search price_pattern (d1 :: d2 :: d3 :: d4 :: ds)
  = Some (RMatch [d1; d2; d3] (Some [d1; d2; d3]) (d4 :: ds)).
Proof.
  intros Hd. unfold digits in Hd. rewrite !Forall_cons in Hd.
  destruct Hd as (H1 & H2 & H3 & H4 & _).
  apply (first_run_search _ [] [d1; d2; d3] [] (d4 :: ds)).
  unfold first_run. split; [done|]. split; [constructor|].
  split; [simpl; lia|]. split; [by repeat constructor|].
  split; [constructor|]. split; [by left|].
  unfold starts_group. destruct ds as [|? [|? [|? ?]]];
    by rewrite ?(digit_not_comma d4 H4).
Qed.

(** ** What the scanner does with a price line *)

Lemma wf_state_2020 : wf_state state_2020.
Proof.
  apply (scan_lines_wf [lit "2020" ++ [nyeon]; lit "2.5SQ"]). by vm_compute.
Defined.

(** With a year and a size at hand, the first grouped run of a line that is
    neither a year line nor a size line is read whole, without its commas:
    [int] reads it when it has 4300 digits at most, and refuses it
    otherwise. *)
Lemma scan_line_first_run st line y s before hd groups after :
  wf_state st ->
  re_search year_pattern line = None ->
  re_search size_pattern line = None ->
  current_year st = Some y -> current_size st = Some s ->
  first_run line before hd groups after ->
  exists yv,
    py_int y = Ok yv
    /\ ((length (hd ++ concat groups) <= int_max_str_digits)%nat ->
        exists v,
          py_int (hd ++ concat groups) = Ok v
          /\ scan_line st line
             = Ok (if (0 <? v)%Z then append_record st (Row yv s v) else st))
    /\ ((int_max_str_digits < length (hd ++ concat groups))%nat ->
        scan_line st line = Raise ValueError).
Proof.
  intros Hwf Ey Es Ecy Ecs Hrun.
  pose proof (first_run_search _ _ _ _ _ Hrun) as Ep.
  destruct (scan_line_price_match st line _ y s Hwf Ey Es Ep Ecy Ecs)
    as (yv & Eyv & E).
  cbn [consumed] in E.
  destruct Hrun as (_ & _ & Hlen & Hhd & Hg & _).
  destruct (price_token_digits hd groups _
              (conj eq_refl (conj Hlen (conj Hhd Hg)))) as (Er & Hd & Hne).
  rewrite Er in E. exists yv. split; [done|]. split.
  - intros Hle. destruct (py_int_digits _ Hd Hne Hle) as (v & Ev & _).
    exists v. split; [done|]. by rewrite E, Ev.
  - intros Hgt. by rewrite E, (py_int_long _ Hgt).
Qed.

(** C6 (the code departs from it on a long run): a line that holds a digit
    and that neither the year nor the size pattern matches has a first
    grouped run of digits: no digit stands before it, it starts with up to
    three digits, as many as there are, and goes on with all the groups of a
    comma and three digits that follow.  With a current year and a current
    size the scanner reads that run, whole and without its commas, as an
    integer.  When the run has 4300 digits at most, it appends the record of
    the current year, the current size and that integer exactly when the
    integer is positive, and leaves the records as they are otherwise.  When
    the run has more than 4300 digits, [int] raises ValueError, which ends
    the scan: no record is appended and no record set is returned. *)
Theorem price_recognizer (st : scan_state) (line : str) (y s : str)
    (c : codepoint) :
  wf_state st ->
  re_search year_pattern line = None ->
  re_search size_pattern line = None ->
  c ∈ line -> is_digit c = true ->
  current_year st = Some y -> current_size st = Some s ->
  (exists before hd groups after, first_run line before hd groups after)
  /\ forall before hd groups after,
       first_run line before hd groups after ->
       exists yv,
         py_int y = Ok yv
         /\ ((length (hd ++ concat groups) <= int_max_str_digits)%nat ->
             exists v,
               py_int (hd ++ concat groups) = Ok v
               /\ scan_line st line
                  = Ok (if (0 <? v)%Z then append_record st (Row yv s v)
                        else st))
         /\ ((int_max_str_digits < length (hd ++ concat groups))%nat ->
             scan_line st line = Raise ValueError).
Proof.
  intros Hwf Ey Es Hc Hd Ecy Ecs. split; [by apply (first_run_exists line c)|].
  intros before hd groups after Hrun.
  by apply (scan_line_first_run st line y s before hd groups after).
Qed.

Lemma long_price_token :
  price_token (lit "12") long_price_groups long_price_line.
Proof.
  split; [reflexivity|]. split; [simpl; lia|].
  split; [by repeat constructor|].
  apply Forall_forall. intros t Ht.
  apply list_elem_of_In, repeat_spec in Ht as ->.
  split; [done|by repeat constructor].
Qed.

Lemma long_price_first_run :
  first_run long_price_line [] (lit "12") long_price_groups [].
Proof.
  destruct long_price_token as (_ & Hlen & Hhd & Hg).
  unfold first_run. split; [symmetry; apply app_nil_r|].
  split; [constructor|]. split; [done|]. split; [done|]. split; [done|].
  split; [by right|reflexivity].
Qed.

Lemma long_price_length :
  (int_max_str_digits < length (lit "12" ++ concat long_price_groups))%nat.
Proof. apply Nat.ltb_lt. vm_compute. reflexivity. Qed.

(** The line 1,000 is read as 1000, and the line of 4301 digits ends the
    scan. *)
Lemma price_recognizer_witness :
  scan_line state_2020 (lit "1,000")
  = Ok (append_record state_2020 (Row 2020 (lit "2.5SQ") 1000))
  /\ scan_line state_2020 long_price_line = Raise ValueError.
Proof.
  split.
  - destruct (price_recognizer state_2020 (lit "1,000") (lit "2020")
                (lit "2.5SQ") 49%N) as [_ H];
      [exact wf_state_2020|vm_compute; reflexivity|vm_compute; reflexivity
      |apply list_elem_of_here|reflexivity|reflexivity|reflexivity|].
    destruct (H [] (lit "1") [lit "000"] []) as (yv & Eyv & Hok & _).
    { unfold first_run. split; [reflexivity|]. split; [constructor|].
      split; [simpl; lia|]. split; [by repeat constructor|].
      split; [by repeat constructor|]. split; [by right|reflexivity]. }
    destruct Hok as (v & Ev & ->);
      [apply Nat.leb_le; vm_compute; reflexivity|].
    vm_compute in Eyv, Ev. injection Eyv as <-. injection Ev as <-.
    reflexivity.
  - destruct (price_recognizer state_2020 long_price_line (lit "2020")
                (lit "2.5SQ") 49%N) as [_ H];
      [exact wf_state_2020
      |exact (proj1 (price_token_no_header _ _ _ long_price_token))
      |exact (proj2 (price_token_no_header _ _ _ long_price_token))
      |apply list_elem_of_here|reflexivity|reflexivity|reflexivity|].
    destruct (H [] (lit "12") long_price_groups [] long_price_first_run)
      as (yv & _ & _ & Hlong).
    exact (Hlong long_price_length).
Defined.

(** The loop goes on from the state that the first line leaves, and ends
    with the exception that it raises; an exception of the loop is that of
    the function. *)
Lemma scan_lines_cons st line lines st1 :
  scan_line st line = Ok st1 ->
  scan_lines st (line :: lines) = scan_lines st1 lines.
Proof. simpl. by intros ->. Qed.

Lemma scan_lines_raise st line lines e :
  scan_line st line = Raise e -> scan_lines st (line :: lines) = Raise e.
Proof. simpl. by intros ->. Qed.

Lemma load_and_process_data_raise text lines e :
  str_split newline text = lines ->
  scan_lines initial_state lines = Raise e ->
  load_and_process_data text = Raise e.
Proof. intros <- E. unfold load_and_process_data. by rewrite E. Qed.

(** The long price ends [load_and_process_data] as well. *)
Example long_price_raises :
  load_and_process_data
    (join_lines [lit "2020" ++ [nyeon]; lit "2.5SQ"; long_price_line])
  = Raise ValueError.
Proof.
  apply (load_and_process_data_raise _
           [lit "2020" ++ [nyeon]; lit "2.5SQ"; long_price_line]);
    [vm_compute; reflexivity|].
  rewrite (scan_lines_cons initial_state _ _
             (ScanState (Some (lit "2020")) None []))
    by (vm_compute; reflexivity).
  rewrite (scan_lines_cons _ _ _ state_2020) by (vm_compute; reflexivity).
  apply scan_lines_raise.
  destruct (scan_line_first_run state_2020 long_price_line (lit "2020")
              (lit "2.5SQ") [] (lit "12") long_price_groups []
              wf_state_2020
              (proj1 (price_token_no_header _ _ _ long_price_token))
              (proj2 (price_token_no_header _ _ _ long_price_token))
              eq_refl eq_refl long_price_first_run)
    as (yv & _ & _ & Hlong).
  exact (Hlong long_price_length).
Qed.

(** C9: every record of the record set has a positive price and a size of
    the form number-SQ.  A price line that reads as 0 leaves the state of the
    scanner as it is, and so does a price line that comes while the year or
    the size is still unset. *)
Theorem extract_invariants :
  (forall text rows,
     load_and_process_data text = Ok (Table rows) -> Forall good_row rows)
  /\ (forall st line m,
        re_search year_pattern line = None ->
        re_search size_pattern line = None ->
        re_search price_pattern line = Some m ->
        py_int (str_remove comma (consumed m)) = Ok 0%Z ->
        scan_line st line = Ok st)
  /\ (forall st line m,
        re_search year_pattern line = None ->
        re_search size_pattern line = None ->
        re_search price_pattern line = Some m ->
        current_year st = None \/ current_size st = None ->
        scan_line st line = Ok st).
Proof.
  split_and!.
  - intros text rows (st & _ & (_ & _ & Hrows) & ->)%load_and_process_data_rows.
    rewrite Forall_forall in Hrows. apply Forall_forall. intros r.
    rewrite sort_rows_perm, drop_duplicate_rows_elem. intros [Hr _]. auto.
  - intros st line m Ey Es Ep E0. unfold scan_line. rewrite Ey, Es, Ep.
    apply price_search in Ep as (-> & _).
    destruct (current_year st) as [cy|]; [|done].
    destruct (current_size st) as [cs|]; [|done].
    destruct (truthy (Some cy) && truthy (Some cs)); [|done].
    simpl. by rewrite E0.
  - intros st line m Ey Es Ep Hnone. unfold scan_line. rewrite Ey, Es, Ep.
    destruct Hnone as [-> | ->]; [done|]. by destruct (current_year st).
Qed.

Lemma extract_invariants_witness :
  Forall good_row scenario_records
  /\ scan_line state_2020 (lit "0") = Ok state_2020
  /\ scan_line initial_state (lit "1,000") = Ok initial_state.
Proof.
  destruct extract_invariants as (Hrows & Hzero & Hunset). split_and!.
  - apply (Hrows scenario_text). vm_compute. reflexivity.
  - apply (Hzero state_2020 (lit "0") (RMatch (lit "0") (Some (lit "0")) []));
      vm_compute; reflexivity.
  - apply (Hunset initial_state (lit "1,000")
             (RMatch (lit "1,000") (Some (lit "1,000")) []));
      [vm_compute; reflexivity..|by left].
Defined.

(** C10, as the code has it: on a line that is a run of four or more digits,
    with a current year and a current size, the price pattern takes the
    first three digits only; the scanner appends the record whose price is
    the integer that they form when that integer is positive, and leaves the
    records as they are when it is zero. *)
Theorem ungrouped_run_price (st : scan_state) (y s : str)
    (d1 d2 d3 d4 : codepoint) (ds : str) :
  wf_state st ->
  current_year st = Some y -> current_size st = Some s ->
  digits (d1 :: d2 :: d3 :: d4 :: ds) ->
  exists v yv,
    py_int [d1; d2; d3] = Ok v
    /\ py_int y = Ok yv
    /\ scan_line st (d1 :: d2 :: d3 :: d4 :: ds)
       = Ok (if (0 <? v)%Z then append_record st (Row yv s v) else st).
Proof.
  intros Hwf Ecy Ecs Hd.
  assert (digits [d1; d2; d3; d4] /\ digits [d1; d2; d3]) as [Hd4 Hd3].
  { unfold digits in *. rewrite !Forall_cons in Hd.
    destruct Hd as (H1 & H2 & H3 & H4 & _).
    split; repeat constructor; done. }
  pose proof (price_search_digit_run d1 d2 d3 d4 ds Hd4) as Ep.
  assert (re_search year_pattern (d1 :: d2 :: d3 :: d4 :: ds) = None) as Ey.
  { apply (re_search_lacking _ nyeon); [apply lang_year_nyeon|].
    intros Hin%list_elem_of_In. unfold digits in Hd.
    rewrite Forall_forall in Hd. by apply (digit_not_nyeon nyeon (Hd _ Hin)). }
  assert (re_search size_pattern (d1 :: d2 :: d3 :: d4 :: ds) = None) as Es.
  { apply (re_search_lacking _ letter_S); [apply lang_size_letter|].
    intros Hin%list_elem_of_In. unfold digits in Hd.
    rewrite Forall_forall in Hd.
    by apply (digit_not_letter_S letter_S (Hd _ Hin)). }
  destruct (scan_line_price_match st _ _ y s Hwf Ey Es Ep Ecy Ecs)
    as (yv & Eyv & E).
  cbn [consumed] in E.
  rewrite (str_remove_digits comma [d1; d2; d3] eq_refl Hd3) in E.
  destruct (py_int_digits [d1; d2; d3] Hd3) as (v & Ev & _);
    [done|unfold int_max_str_digits; simpl; lia|].
  exists v, yv. by rewrite E, Ev.
Qed.

Lemma ungrouped_run_price_witness :
  exists v yv,
    py_int (lit "123") = Ok v
    /\ py_int (lit "2020") = Ok yv
    /\ scan_line state_2020 (lit "1234")
       = Ok (if (0 <? v)%Z
             then append_record state_2020 (Row yv (lit "2.5SQ") v)
             else state_2020).
Proof.
  apply (ungrouped_run_price state_2020 (lit "2020") (lit "2.5SQ")
           49%N 50%N 51%N 52%N []).
  - exact wf_state_2020.
  - reflexivity.
  - reflexivity.
  - repeat constructor.
Defined.

(** The line 0001 is a run of four digits, and the scanner appends no record
    for it: its first three digits read as 0. *)
Lemma ungrouped_run_counterexample :
  wf_state state_2020
  /\ digits (lit "0001")
  /\ ~ exists r,
         scan_line state_2020 (lit "0001") = Ok (append_record state_2020 r).
Proof.
  split_and!; [exact wf_state_2020|repeat constructor|].
  intros [r Hr]. vm_compute in Hr. discriminate.
Qed.

(** ** The pivot table *)

Lemma NoDup_key_inj (df : list row) r1 r2 :
  NoDup (map cell_key df) -> r1 ∈ df -> r2 ∈ df ->
  cell_key r1 = cell_key r2 -> r1 = r2.
Proof.
  induction df as [|r df IH]; simpl; [by intros _ ?%elem_of_nil|].
  intros [Hr Hnd]%NoDup_cons. rewrite !elem_of_cons.
  intros [->|H1] [->|H2] Hk; [done|..|by apply IH].
  - destruct Hr. rewrite Hk. by apply (list_elem_of_fmap_2 cell_key).
  - destruct Hr. rewrite <- Hk. by apply (list_elem_of_fmap_2 cell_key).
Qed.

(** Two records of one size and year with different prices: [pivot] returns
    no table for them. *)
Lemma pivot_collision_counterexample :
  let r1 := Row 2020 (lit "2.5SQ") 1000 in
  let r2 := Row 2020 (lit "2.5SQ") 1300 in
  size r1 = size r2 /\ year r1 = year r2 /\ price r1 <> price r2
  /\ ~ exists p, pivot [r1; r2] = Ok p.
Proof.
  split_and!; [done..|]. intros [p Hp]. vm_compute in Hp. discriminate.
Qed.

(** C5, as the code has it: when two records of the record set have the same
    size and year and different prices, [pivot] settles the collision in one
    fixed way: it rejects the record set with ValueError and returns no
    table. *)
Theorem pivot_collision_rejected (df : list row) (r1 r2 : row) :
  r1 ∈ df -> r2 ∈ df ->
  size r1 = size r2 -> year r1 = year r2 -> price r1 <> price r2 ->
  pivot df = Raise ValueError.
Proof.
  intros H1 H2 Hs Hy Hp. unfold pivot.
  case_bool_decide as Hnd; [|done].
  destruct Hp. f_equal. apply (NoDup_key_inj df r1 r2 Hnd H1 H2).
  unfold cell_key. by rewrite Hs, Hy.
Qed.

Lemma pivot_collision_rejected_witness :
  pivot [Row 2020 (lit "2.5SQ") 1000; Row 2020 (lit "2.5SQ") 1300]
  = Raise ValueError.
Proof.
  apply (pivot_collision_rejected _ (Row 2020 (lit "2.5SQ") 1000)
           (Row 2020 (lit "2.5SQ") 1300)).
  - apply list_elem_of_here.
  - apply list_elem_of_further, list_elem_of_here.
  - reflexivity.
  - reflexivity.
  - simpl. lia.
Defined.

(** Without a collision the table has the price of every record in the cell
    of its size and year. *)
Lemma insert_unique_elem {A} (cmp : A -> A -> comparison) a l x :
  (forall u v, cmp u v = Eq -> u = v) ->
  x ∈ insert_unique cmp a l <-> x = a \/ x ∈ l.
Proof.
  intros Heq. induction l as [|b l IH]; simpl.
  - rewrite list_elem_of_singleton, elem_of_nil. tauto.
  - destruct (cmp a b) eqn:E.
    + apply Heq in E as ->. rewrite elem_of_cons. tauto.
    + by rewrite elem_of_cons.
    + rewrite !elem_of_cons, IH. tauto.
Qed.

Lemma axis_labels_elem {A} (cmp : A -> A -> comparison) l x :
  (forall u v, cmp u v = Eq -> u = v) ->
  x ∈ axis_labels cmp l <-> x ∈ l.
Proof.
  intros Heq. induction l as [|a l IH]; simpl; [done|].
  by rewrite insert_unique_elem, IH, elem_of_cons.
Qed.

Lemma cell_of_record df r :
  NoDup (map cell_key df) -> r ∈ df ->
  cell_of df (size r) (year r) = Some (price r).
Proof.
  intros Hnd Hr. unfold cell_of.
  destruct (filter _ df) as [|r' l] eqn:E.
  - exfalso. eapply (filter_nil_not_elem_of _ df r E); done.
  - assert (r' ∈ filter (fun r0 => size r0 = size r /\ year r0 = year r) df)
      as [[Hs Hy] Hr']%list_elem_of_filter by (rewrite E; by left).
    f_equal. f_equal. apply (NoDup_key_inj df); [done..|].
    unfold cell_key. by rewrite Hs, Hy.
Qed.

Lemma pivot_without_collision df :
  NoDup (map cell_key df) ->
  exists p, pivot df = Ok p
    /\ forall r, r ∈ df -> pivot_cell p (size r) (year r) = Some (price r).
Proof.
  intros Hnd. unfold pivot. rewrite bool_decide_eq_true_2 by done.
  eexists. split; [done|]. intros r Hr. unfold pivot_cell. simpl.
  assert (size r ∈ axis_labels str_compare (map size df)) as Hs.
  { apply axis_labels_elem; [apply str_compare_eq|].
    by apply (list_elem_of_fmap_2 size). }
  assert (year r ∈ axis_labels Z.compare (map year df)) as Hy.
  { apply axis_labels_elem; [apply Z.compare_eq|].
    by apply (list_elem_of_fmap_2 year). }
  destruct (list_find_elem_of (fun s' => s' = size r) _ _ Hs eq_refl)
    as [[i s'] Ei].
  destruct (list_find_elem_of (fun y' => y' = year r) _ _ Hy eq_refl)
    as [[j y'] Ej].
  rewrite Ei, Ej.
  apply list_find_Some in Ei as (Ei & -> & _).
  apply list_find_Some in Ej as (Ej & -> & _).
  change (map ?f ?l) with (f <$> l).
  rewrite list_lookup_fmap, Ei. simpl.
  change (map ?f ?l) with (f <$> l).
  rewrite list_lookup_fmap, Ej. simpl.
  by apply cell_of_record.
Qed.

(** Such a collision comes out of [load_and_process_data] itself: two prices
    under one year and size are both kept, and the table of the page cannot
    be built from them. *)
Example collision_from_listing :
  let text := join_lines [lit "2020" ++ [nyeon]; lit "2.5SQ";
                          lit "1,000"; lit "1,300"] in
  let rows := [Row 2020 (lit "2.5SQ") 1000; Row 2020 (lit "2.5SQ") 1300] in
  load_and_process_data text = Ok (Table rows)
  /\ pivot rows = Raise ValueError.
Proof. split; by vm_compute. Qed.

(** * More of the page *)

(** ** The scanner, line by line *)

Ltac split_scan :=
  repeat match goal with
  | |- context [match ?x with _ => _ end] => destruct x eqn:?; simpl
  | |- context [if ?x then _ else _] => destruct x eqn:?; simpl
  end.

Lemma scan_line_headers st line st' :
  scan_line st line = Ok st' ->
  current_year st' = year_after (current_year st) line
  /\ current_size st' = size_after (current_size st) line.
Proof.
  unfold scan_line, year_after, size_after, rbind.
  split_scan; intros [= <-]; done.
Qed.

Lemma scan_line_new_rows st line st' :
  wf_state st -> scan_line st line = Ok st' ->
  cable_data st'
  = cable_data st ++ new_rows (current_year st) (current_size st) line.
Proof.
  intros Hwf E. unfold new_rows, quoted_price.
  destruct (re_search year_pattern line) as [ym|] eqn:Ey.
  { unfold scan_line in E. rewrite Ey in E. injection E as <-. simpl.
    destruct (current_year st), (current_size st); by rewrite app_nil_r. }
  destruct (re_search size_pattern line) as [sm|] eqn:Es.
  { unfold scan_line in E. rewrite Ey, Es in E. injection E as <-. simpl.
    destruct (current_year st), (current_size st); by rewrite app_nil_r. }
  destruct (re_search price_pattern line) as [pm|] eqn:Ep.
  2:{ unfold scan_line in E. rewrite Ey, Es, Ep in E. injection E as <-.
      destruct (current_year st), (current_size st); by rewrite app_nil_r. }
  destruct (current_year st) as [y|] eqn:Ecy.
  2:{ unfold scan_line in E. rewrite Ey, Es, Ep, Ecy in E. injection E as <-.
      by rewrite app_nil_r. }
  destruct (current_size st) as [sz|] eqn:Ecs.
  2:{ unfold scan_line in E. rewrite Ey, Es, Ep, Ecy, Ecs in E.
      injection E as <-. by rewrite app_nil_r. }
  destruct (scan_line_price_match st line pm y sz Hwf Ey Es Ep Ecy Ecs)
    as (yv & Eyv & E').
  rewrite E' in E.
  destruct (py_int (str_remove comma (consumed pm))) as [v|e]; [|done].
  simpl in E. destruct (0 <? v)%Z; injection E as <-; simpl;
    [by rewrite Eyv|by rewrite app_nil_r].
Qed.

Lemma new_rows_quoted before line r :
  r ∈ new_rows (foldl year_after None before) (foldl size_after None before)
        line
  <-> quoted_record before line r.
Proof.
  unfold new_rows, quoted_record.
  destruct (foldl year_after None before) as [y|].
  2:{ split; [by intros ?%elem_of_nil|by intros (y & [=] & _)]. }
  destruct (foldl size_after None before) as [s|].
  2:{ split; [by intros ?%elem_of_nil|by intros (y' & _ & _ & [=] & _)]. }
  destruct (quoted_price line) as [v|].
  2:{ split; [by intros ?%elem_of_nil|by intros (y' & _ & _ & _ & [=])]. }
  destruct (py_int y) as [yv|e] eqn:Ey.
  - rewrite list_elem_of_singleton. split.
    + intros ->. exists y. by rewrite Ey.
    + intros (y' & [= <-] & Hy & [= ->] & [= ->]). rewrite Ey in Hy.
      injection Hy as ->. by destruct r.
  - split; [by intros ?%elem_of_nil|].
    intros (y' & [= <-] & Hy & _). congruence.
Qed.

(** The state after some lines, from the state before them: the headers are
    those in force after the lines, and the records are those there were and
    those that the lines add, each under the headers in force at its line. *)
Lemma scan_lines_spec lines : forall st st',
  wf_state st -> scan_lines st lines = Ok st' ->
  current_year st' = foldl year_after (current_year st) lines
  /\ current_size st' = foldl size_after (current_size st) lines
  /\ forall r, r ∈ cable_data st'
       <-> r ∈ cable_data st
           \/ exists pre l post, lines = pre ++ l :: post
                /\ r ∈ new_rows (foldl year_after (current_year st) pre)
                                (foldl size_after (current_size st) pre) l.
Proof.
  induction lines as [|l0 lines IH]; intros st st' Hwf E; simpl in E.
  - injection E as <-. split_and!; [done..|]. intros r. split; [auto|].
    intros [?|(pre & l & post & Hl & _)]; [done|]. by destruct pre.
  - destruct (scan_line st l0) as [st1|e] eqn:E1; [|done]. simpl in E.
    destruct (scan_line_wf _ _ _ Hwf E1) as [Hwf1 _].
    destruct (scan_line_headers _ _ _ E1) as [Hy1 Hs1].
    pose proof (scan_line_new_rows _ _ _ Hwf E1) as Hd1.
    destruct (IH st1 st' Hwf1 E) as (Hy & Hs & Hr).
    split_and!; simpl; [by rewrite <- Hy1|by rewrite <- Hs1|].
    intros r. rewrite Hr, Hd1, elem_of_app, Hy1, Hs1. split.
    + intros [[?|?]|(pre & l & post & -> & Hin)]; [by left| |].
      * right. by exists [], l0, lines.
      * right. by exists (l0 :: pre), l, post.
    + intros [?|(pre & l & post & Hl & Hin)]; [by left; left|].
      destruct pre as [|l1 pre]; simpl in Hl; injection Hl as -> ->.
      * left. by right.
      * right. by exists pre, l, post.
Qed.

Lemma scanned_records_quoted text st :
  scan_lines initial_state (str_split newline text) = Ok st ->
  forall r, r ∈ cable_data st
    <-> exists before line after,
          str_split newline text = before ++ line :: after
          /\ quoted_record before line r.
Proof.
  intros E r.
  destruct (scan_lines_spec _ _ _ wf_initial_state E) as (_ & _ & Hr).
  rewrite Hr. simpl. split.
  - intros [[]%elem_of_nil|(pre & l & post & Hl & Hin)].
    exists pre, l, post. split; [done|]. by apply new_rows_quoted.
  - intros (pre & l & post & Hl & Hq). right.
    exists pre, l, post. split; [done|]. by apply new_rows_quoted.
Qed.

(** X1: the records of the returned frame are exactly those that the listing
    quotes: a record for every line that quotes a positive price while a
    year and a size are in force, with the year and the size of the latest
    year line and size line before it; and no other record. *)
Theorem extract_records_quoted (text : str) (rows : list row) :
  load_and_process_data text = Ok (Table rows) ->
  forall r, r ∈ rows
    <-> exists before line after,
          str_split newline text = before ++ line :: after
          /\ quoted_record before line r.
Proof.
  intros (st & E & _ & ->)%load_and_process_data_rows r.
  rewrite <- (scanned_records_quoted text st E).
  rewrite sort_rows_perm, drop_duplicate_rows_elem.
  split; [tauto|]. intros Hr. split; [done|]. by intros ?%elem_of_nil.
Qed.

Lemma extract_records_quoted_witness :
  Row 2023 (lit "2.5SQ") 1300 ∈ scenario_records
  <-> exists before line after,
        str_split newline scenario_text = before ++ line :: after
        /\ quoted_record before line (Row 2023 (lit "2.5SQ") 1300).
Proof.
  apply (extract_records_quoted scenario_text scenario_records).
  vm_compute. reflexivity.
Defined.

(** ** The exceptions of [load_and_process_data] *)






(** ** The years of the records *)

Lemma int_digits_upper s : forall acc v,
  int_digits acc s = Some v -> (0 <= acc)%Z ->
  (v < (acc + 1) * 10 ^ Z.of_nat (length s))%Z.
Proof.
  induction s as [|c s IH]; simpl length; intros acc v H Hacc.
  - simpl in H. injection H as <-. simpl. lia.
  - simpl in H. destruct (digit_value c) as [d|] eqn:E; [|discriminate].
    apply digit_value_range in E. apply IH in H; [|lia].
    rewrite Nat2Z.inj_succ, Z.pow_succ_r by lia.
    assert (0 < 10 ^ Z.of_nat (length s))%Z by (apply Z.pow_pos_nonneg; lia).
    nia.
Qed.

Lemma year_token_range y v :
  year_token y -> py_int y = Ok v -> (0 <= v <= 9999)%Z.
Proof.
  intros [Hl Hd] E. unfold py_int in E.
  destruct (int_max_str_digits <? length y)%nat; [done|].
  destruct y as [|c y]; [done|].
  destruct (int_digits 0 (c :: y)) as [v'|] eqn:Ev; [|done].
  injection E as ->. pose proof (int_digits_lower _ _ _ Ev).
  apply int_digits_upper in Ev; [|lia]. rewrite Hl in Ev. simpl in Ev. lia.
Qed.

Lemma year_in_force_token lines : forall cy y,
  (forall y0, cy = Some y0 -> year_token y0) ->
  foldl year_after cy lines = Some y -> year_token y.
Proof.
  induction lines as [|l lines IH]; simpl; intros cy y Hcy; [apply Hcy|].
  apply IH. intros y0. unfold year_after.
  destruct (re_search year_pattern l) as [m|] eqn:E; [|apply Hcy].
  apply year_search in E as (y1 & -> & Ht). by intros [= <-].
Qed.

(** X3: the year of every record of the returned frame is a number of four
    digits at most: between 0 and 9999. *)
Theorem record_years_four_digits (text : str) (rows : list row) :
  load_and_process_data text = Ok (Table rows) ->
  Forall (fun r => (0 <= year r <= 9999)%Z) rows.
Proof.
  intros (st & E & _ & ->)%load_and_process_data_rows.
  apply Forall_forall. intros r.
  rewrite sort_rows_perm, drop_duplicate_rows_elem. intros [Hr _].
  apply (scanned_records_quoted text st E) in Hr
    as (before & line & after & _ & y & Hy & Hint & _).
  apply (year_token_range y); [|done].
  by apply (year_in_force_token before None).
Qed.

Lemma record_years_four_digits_witness :
  Forall (fun r => (0 <= year r <= 9999)%Z) scenario_records.
Proof.
  apply (record_years_four_digits scenario_text). vm_compute. reflexivity.
Defined.

(** ** Which pattern a line falls to *)

Lemma first_year_header d1 d2 d3 d4 s :
  digits [d1; d2; d3; d4] ->
  first_match year_pattern (d1 :: d2 :: d3 :: d4 :: nyeon :: s) None
  = Some (RMatch [d1; d2; d3; d4; nyeon] (Some [d1; d2; d3; d4]) s).
Proof.
  intros Hd. unfold digits in Hd. rewrite !Forall_cons in Hd.
  destruct Hd as (H1 & H2 & H3 & H4 & _). unfold year_pattern.
  eassert (first_match (Group (Times 4 Digit))
             (d1 :: d2 :: d3 :: d4 :: nyeon :: s) None = Some _) as Hg.
  { eapply first_group.
    repeat (eapply first_cat; [by apply first_digit|]). apply first_eps. }
  rewrite (first_cat _ _ _ _ _ _ Hg (first_lit _ _ _)). done.
Qed.

Lemma no_year_header_before a2 d1 d2 d3 d4 s :
  digits [d1; d2; d3; d4] -> nyeon ∉ a2 -> a2 <> [] ->
  run year_pattern (a2 ++ d1 :: d2 :: d3 :: d4 :: nyeon :: s) None = [].
Proof.
  intros Hd Ha Hne.
  destruct (run year_pattern _ None) as [|m ms] eqn:E; [done|]. exfalso.
  assert (In m (run year_pattern
                  (a2 ++ d1 :: d2 :: d3 :: d4 :: nyeon :: s) None))
    as [Hs Hl]%run_sound by (rewrite E; by left).
  invert Hl.
  match goal with H : lang (Lit _) _ |- _ => invert H end.
  match goal with H : lang (Group _) ?y |- _ =>
    invert H; rename y into y0 end.
  match goal with H : lang (Cat Digit _) _ |- _ =>
    apply (lang_times_digit 4) in H as [Hlen _] end.
  match goal with H : _ = consumed m |- _ => rewrite <- H in Hs end.
  assert ((a2 ++ d1 :: d2 :: d3 :: d4 :: nyeon :: s) !! 4%nat = Some nyeon)
    as Hlook.
  { rewrite Hs, <- app_assoc, lookup_app_r by lia.
    by rewrite Hlen. }
  change (d1 :: d2 :: d3 :: d4 :: nyeon :: s)
    with ([d1; d2; d3; d4] ++ nyeon :: s) in Hlook.
  rewrite app_assoc, lookup_app_l in Hlook.
  2:{ rewrite length_app. simpl. destruct a2; [done|]. simpl. lia. }
  apply list_elem_of_lookup_2 in Hlook.
  apply elem_of_app in Hlook as [?|Hlook]; [done|].
  unfold digits in Hd. rewrite Forall_forall in Hd.
  by apply (digit_not_nyeon nyeon (Hd _ Hlook)).
Qed.

(** X4: a line on which four digits stand before the year glyph only sets
    the current year, whatever else is on the line: the size and the records
    stay as they are.  The year is that of the first glyph of the line when
    no glyph stands before these four digits. *)
Theorem year_line_only_sets_year (st : scan_state) (a b : str)
    (d1 d2 d3 d4 : codepoint) :
  digits [d1; d2; d3; d4] ->
  exists y,
    year_token y
    /\ (nyeon ∉ a -> y = [d1; d2; d3; d4])
    /\ scan_line st (a ++ d1 :: d2 :: d3 :: d4 :: nyeon :: b)
       = Ok (ScanState (Some y) (current_size st) (cable_data st)).
Proof.
  intros Hd. pose proof (first_year_header d1 d2 d3 d4 b Hd) as Hfirst.
  destruct (first_match_search _ a _ _ Hfirst) as [m Em].
  destruct (year_search _ _ Em) as (y & Eg & Hy).
  exists y. split_and!; [done| |].
  - intros Ha.
    assert (forall b1 b2, a = b1 ++ b2 -> b2 <> [] ->
              run year_pattern (b2 ++ d1 :: d2 :: d3 :: d4 :: nyeon :: b) None
              = []) as Hpre.
    { intros b1 b2 -> Hne. apply no_year_header_before; [done| |done].
      intros Hin. apply Ha, elem_of_app. by right. }
    rewrite (re_search_at year_pattern a _ _ Hpre Hfirst) in Em.
    injection Em as <-. simpl in Eg. by injection Eg as <-.
  - unfold scan_line. by rewrite Em, Eg.
Qed.

Lemma year_line_only_sets_year_witness :
  exists y,
    year_token y
    /\ (nyeon ∉ lit "price " -> y = lit "2021")
    /\ scan_line state_2020 (lit "price " ++ lit "2021" ++ nyeon :: lit " 4SQ 500")
       = Ok (ScanState (Some y) (current_size state_2020)
               (cable_data state_2020)).
Proof.
  apply (year_line_only_sets_year state_2020 (lit "price ") (lit " 4SQ 500")
           50%N 48%N 50%N 49%N).
  repeat constructor.
Defined.

Lemma first_size_token d s :
  is_digit d = true ->
  exists m, first_match size_pattern (d :: letter_S :: letter_Q :: s) None
            = Some m.
Proof.
  intros Hd. unfold size_pattern. eexists. eapply first_group, first_cat.
  - eapply first_cat; [by apply first_digit|].
    apply first_star_stop. by apply run_digit_nil.
  - eapply first_cat.
    + apply first_opt_skip, run_cat_nil. by apply run_lit_nil.
    + eapply first_cat; apply first_lit.
Qed.

(** X5: a line without a year glyph on which a digit stands before the
    letters SQ only sets the current size, to a token of the cross-section
    grammar: a price on the same line is not recorded. *)
Theorem size_line_only_sets_size (st : scan_state) (a b : str)
    (d : codepoint) :
  is_digit d = true ->
  nyeon ∉ a ++ d :: letter_S :: letter_Q :: b ->
  exists s,
    cross_section_token s
    /\ scan_line st (a ++ d :: letter_S :: letter_Q :: b)
       = Ok (ScanState (current_year st) (Some s) (cable_data st)).
Proof.
  intros Hd Hno.
  assert (re_search year_pattern (a ++ d :: letter_S :: letter_Q :: b) = None)
    as Ey.
  { apply (re_search_lacking _ nyeon); [apply lang_year_nyeon|].
    by intros ?%list_elem_of_In. }
  destruct (first_size_token d b Hd) as [m0 Hfirst].
  destruct (first_match_search _ a _ _ Hfirst) as [m Em].
  destruct (size_search _ _ Em) as (Eg & Hs).
  exists (consumed m). split; [done|].
  unfold scan_line. by rewrite Ey, Em, Eg.
Qed.

Lemma size_line_only_sets_size_witness :
  exists s,
    cross_section_token s
    /\ scan_line state_2020 (lit "cable " ++ 52%N :: letter_S :: letter_Q
                               :: lit " 1,500")
       = Ok (ScanState (current_year state_2020) (Some s)
               (cable_data state_2020)).
Proof.
  apply (size_line_only_sets_size state_2020 (lit "cable ") (lit " 1,500")
           52%N).
  - reflexivity.
  - apply (bool_decide_unpack _). vm_compute. exact I.
Defined.

(** ** Grouped numbers are read whole *)

(** X6: a line that begins with a well-formed grouped number (one to three
    digits, then groups of a comma and three digits), followed by nothing or
    by a character that is neither a digit nor a comma, is read as that whole
    number: with a year and a size in force the scanner appends the record
    of that number when it is positive and has 4300 digits at most, and
    raises ValueError when it has more.  The rest of the line may not hold
    the year glyph or the letter S. *)
Theorem grouped_price_read_whole (st : scan_state) (y s : str)
    (hd : str) (groups : list str) (g after : str) :
  wf_state st ->
  current_year st = Some y -> current_size st = Some s ->
  price_token hd groups g -> ends_number after ->
  nyeon ∉ after -> letter_S ∉ after ->
  exists yv,
    py_int y = Ok yv
    /\ ((length (hd ++ concat groups) <= int_max_str_digits)%nat ->
        exists v,
          py_int (hd ++ concat groups) = Ok v
          /\ scan_line st (g ++ after)
             = Ok (if (0 <? v)%Z then append_record st (Row yv s v) else st))
    /\ ((int_max_str_digits < length (hd ++ concat groups))%nat ->
        scan_line st (g ++ after) = Raise ValueError).
Proof.
  intros Hwf Ecy Ecs Ht Hafter Hny HS.
  assert (re_search year_pattern (g ++ after) = None) as Ey.
  { apply (re_search_lacking _ nyeon); [apply lang_year_nyeon|].
    intros [Hin|Hin]%list_elem_of_In%elem_of_app; [|done].
    destruct (price_token_chars _ _ _ _ Ht Hin) as [Hd|Hc]; [|done].
    by apply (digit_not_nyeon nyeon Hd). }
  assert (re_search size_pattern (g ++ after) = None) as Es.
  { apply (re_search_lacking _ letter_S); [apply lang_size_letter|].
    intros [Hin|Hin]%list_elem_of_In%elem_of_app; [|done].
    destruct (price_token_chars _ _ _ _ Ht Hin) as [Hd|Hc]; [|done].
    by apply (digit_not_letter_S letter_S Hd). }
  apply (scan_line_first_run st (g ++ after) y s [] hd groups after);
    [done..|].
  destruct Ht as (-> & Hlen & Hhd & Hg).
  unfold first_run. split; [done|]. split; [constructor|].
  split; [done|]. split; [done|]. split; [done|]. split.
  - right. destruct groups as [|t groups]; [|done]. simpl.
    destruct after as [|c after]; [done|]. by destruct Hafter as [? _].
  - destruct after as [|c after]; [done|]. destruct Hafter as [_ Hc].
    unfold starts_group. destruct (N.eqb_spec comma c) as [<-|?]; [done|].
    by destruct after as [|? [|? [|? ?]]].
Qed.

Lemma grouped_price_read_whole_witness :
  scan_line state_2020 (lit "1,234,567" ++ lit " won")
  = Ok (append_record state_2020 (Row 2020 (lit "2.5SQ") 1234567)).
Proof.
  destruct (grouped_price_read_whole state_2020 (lit "2020") (lit "2.5SQ")
              (lit "1") [lit "234"; lit "567"] (lit "1,234,567") (lit " won"))
    as (yv & Eyv & Hok & _).
  - exact wf_state_2020.
  - reflexivity.
  - reflexivity.
  - split; [reflexivity|]. split; [simpl; lia|].
    split; by repeat constructor.
  - split; [reflexivity|]. intros H. vm_compute in H. discriminate.
  - apply (bool_decide_unpack _). vm_compute. exact I.
  - apply (bool_decide_unpack _). vm_compute. exact I.
  - destruct Hok as (v & Ev & ->);
      [apply Nat.leb_le; vm_compute; reflexivity|].
    vm_compute in Eyv, Ev. injection Eyv as <-. injection Ev as <-.
    reflexivity.
Defined.

(** ** A line said twice *)

(** The loop looks at the headers only: the records that it starts with come
    out before those that it adds. *)
Lemma scan_line_data cy cs d line :
  scan_line (ScanState cy cs d) line
  = let* st := scan_line (ScanState cy cs []) line in
    Ok (ScanState (current_year st) (current_size st) (d ++ cable_data st)).
Proof.
  unfold scan_line. cbn [current_year current_size cable_data].
  destruct (re_search year_pattern line); [simpl; by rewrite app_nil_r|].
  destruct (re_search size_pattern line); [simpl; by rewrite app_nil_r|].
  destruct (re_search price_pattern line) as [m|];
    [|simpl; by rewrite app_nil_r].
  destruct cy as [y|]; [|simpl; by rewrite app_nil_r].
  destruct cs as [s|]; [|simpl; by rewrite app_nil_r].
  destruct (truthy (Some y) && truthy (Some s));
    [|simpl; by rewrite app_nil_r].
  destruct (group1 m) as [g|]; simpl; [|done].
  destruct (py_int (str_remove comma g)) as [v|e]; simpl; [|done].
  destruct (0 <? v)%Z; simpl; [|by rewrite app_nil_r].
  by destruct (py_int y).
Qed.

Lemma scan_lines_data lines : forall cy cs d,
  scan_lines (ScanState cy cs d) lines
  = let* st := scan_lines (ScanState cy cs []) lines in
    Ok (ScanState (current_year st) (current_size st) (d ++ cable_data st)).
Proof.
  induction lines as [|l lines IH]; intros cy cs d; simpl.
  - by rewrite app_nil_r.
  - rewrite (scan_line_data cy cs d).
    destruct (scan_line (ScanState cy cs []) l) as [[cy1 cs1 d1]|e]; simpl;
      [|done].
    rewrite (IH cy1 cs1 (d ++ d1)), (IH cy1 cs1 d1).
    destruct (scan_lines (ScanState cy1 cs1 []) lines) as [st|e]; simpl;
      [|done].
    by rewrite app_assoc.
Qed.

Lemma scan_lines_app lines1 lines2 : forall st,
  scan_lines st (lines1 ++ lines2)
  = let* st' := scan_lines st lines1 in scan_lines st' lines2.
Proof.
  induction lines1 as [|l lines1 IH]; intros st; simpl; [done|].
  destruct (scan_line st l) as [st1|e]; simpl; [apply IH|done].
Qed.

(** A line that the loop got through adds the same records, one at most,
    when it comes again, and leaves the headers as they are. *)
Lemma scan_line_again st line st1 :
  scan_line st line = Ok st1 ->
  exists new,
    (new = [] \/ exists r, new = [r])
    /\ cable_data st1 = cable_data st ++ new
    /\ scan_line st1 line
       = Ok (ScanState (current_year st1) (current_size st1)
               (cable_data st1 ++ new)).
Proof.
  destruct st as [cy cs d]. unfold scan_line.
  cbn [current_year current_size cable_data].
  destruct (re_search year_pattern line) as [ym|].
  { intros [= <-]. exists []. cbn [current_year current_size cable_data].
    rewrite !app_nil_r. auto. }
  destruct (re_search size_pattern line) as [sm|].
  { intros [= <-]. exists []. cbn [current_year current_size cable_data].
    rewrite !app_nil_r. auto. }
  destruct (re_search price_pattern line) as [pm|].
  2:{ intros [= <-]. exists []. cbn [current_year current_size cable_data].
      rewrite !app_nil_r. auto. }
  destruct cy as [y|].
  2:{ intros [= <-]. exists []. cbn [current_year current_size cable_data].
      rewrite !app_nil_r. auto. }
  destruct cs as [s|].
  2:{ intros [= <-]. exists []. cbn [current_year current_size cable_data].
      rewrite !app_nil_r. auto. }
  destruct (truthy (Some y) && truthy (Some s)) eqn:Et.
  2:{ intros [= <-]. exists []. cbn [current_year current_size cable_data].
      rewrite Et, !app_nil_r. auto. }
  destruct (group1 pm) as [g|]; cbn [rbind]; [|done].
  destruct (py_int (str_remove comma g)) as [v|e] eqn:Ev; cbn [rbind];
    [|done].
  destruct (0 <? v)%Z eqn:Epos.
  2:{ intros [= <-]. exists []. cbn [current_year current_size cable_data].
      rewrite Et, !app_nil_r. auto. }
  destruct (py_int y) as [yv|e] eqn:Ey; cbn [rbind]; [|done].
  intros [= <-]. exists [Row yv s v].
  cbn [current_year current_size cable_data]. rewrite Et, Ey. eauto.
Qed.

Lemma drop_duplicate_rows_twice a r x : forall seen,
  drop_duplicate_rows seen (a ++ r :: r :: x)
  = drop_duplicate_rows seen (a ++ r :: x).
Proof.
  induction a as [|r0 a IH]; intros seen; simpl.
  - case_bool_decide as Hr; [done|].
    by rewrite bool_decide_eq_true_2 by apply list_elem_of_here.
  - case_bool_decide; by rewrite IH.
Qed.

(** X7: saying a line twice in a row changes nothing: a text in which a line
    is followed by a copy of itself gives the same result, frame or
    exception, as the text with the line once. *)
Theorem repeated_line_harmless (text1 text2 : str) (before after : list str)
    (line : str) :
  str_split newline text1 = before ++ line :: line :: after ->
  str_split newline text2 = before ++ line :: after ->
  load_and_process_data text1 = load_and_process_data text2.
Proof.
  intros E1 E2. unfold load_and_process_data. rewrite E1, E2.
  rewrite !scan_lines_app.
  destruct (scan_lines initial_state before) as [st|e]; simpl; [|done].
  destruct (scan_line st line) as [st1|e] eqn:El; simpl; [|done].
  destruct (scan_line_again _ _ _ El) as (new & Hnew & Hd & ->). simpl.
  destruct st1 as [cy1 cs1 d1]. simpl in *.
  rewrite (scan_lines_data after cy1 cs1 (d1 ++ new)),
    (scan_lines_data after cy1 cs1 d1).
  destruct (scan_lines (ScanState cy1 cs1 []) after) as [st2|e]; simpl;
    [|done].
  destruct Hnew as [->|[r ->]]; [by rewrite app_nil_r|].
  rewrite Hd, <- !app_assoc. simpl.
  set (a := cable_data st). set (x := cable_data st2).
  assert (forall l, pd_DataFrame (a ++ r :: l) = Table (a ++ r :: l))
    as Hdf by (intros l; by destruct a).
  rewrite !Hdf. simpl. by rewrite drop_duplicate_rows_twice.
Qed.

Lemma repeated_line_harmless_witness :
  load_and_process_data
    (join_lines [lit "2020" ++ [nyeon]; lit "2.5SQ"; lit "1,000";
                 lit "1,000"; lit "1,300"])
  = load_and_process_data
      (join_lines [lit "2020" ++ [nyeon]; lit "2.5SQ"; lit "1,000";
                   lit "1,300"]).
Proof.
  apply (repeated_line_harmless _ _ [lit "2020" ++ [nyeon]; lit "2.5SQ"]
           [lit "1,300"] (lit "1,000")).
  - vm_compute. reflexivity.
  - vm_compute. reflexivity.
Defined.

(** ** The options of the selectors *)

Lemma unique_from_elem {A} `{EqDecision A} (col : list A) : forall seen x,
  x ∈ unique_from seen col <-> x ∈ col /\ x ∉ seen.
Proof.
  induction col as [|v col IH]; intros seen x; simpl.
  - split; [by intros ?%elem_of_nil|by intros [?%elem_of_nil _]].
  - case_bool_decide as Hv.
    + rewrite IH, elem_of_cons. split; [tauto|].
      intros [[->|?] ?]; [contradiction|tauto].
    + rewrite !elem_of_cons, IH, elem_of_cons.
      destruct (decide (x = v)) as [->|]; tauto.
Qed.

Lemma unique_from_NoDup {A} `{EqDecision A} (col : list A) : forall seen,
  NoDup (unique_from seen col).
Proof.
  induction col as [|v col IH]; intros seen; simpl; [constructor|].
  case_bool_decide; [done|]. constructor; [|done].
  rewrite unique_from_elem, elem_of_cons. tauto.
Qed.

Lemma unique_elem {A} `{EqDecision A} (col : list A) x :
  x ∈ unique col <-> x ∈ col.
Proof.
  unfold unique. rewrite unique_from_elem. split; [tauto|].
  intros Hx. split; [done|]. by intros ?%elem_of_nil.
Qed.

Section comparison.
Context {A : Type} `{EqDecision A} (cmp : A -> A -> comparison).
Hypothesis cmp_antisym : forall a b, cmp b a = CompOpp (cmp a b).
Hypothesis cmp_eq : forall a b, cmp a b = Eq -> a = b.
Hypothesis cmp_lt_trans :
  forall a b c, cmp a b = Lt -> cmp b c = Lt -> cmp a c = Lt.

Lemma insert_sorted_perm a l : insert_sorted cmp a l ≡ₚ a :: l.
Proof.
  induction l as [|b l IH]; simpl; [done|].
  destruct (cmp a b); [done..|]. rewrite IH. apply Permutation_swap.
Qed.

Lemma py_sorted_perm l : py_sorted cmp l ≡ₚ l.
Proof.
  induction l as [|a l IH]; simpl; [done|].
  rewrite insert_sorted_perm. by constructor.
Qed.

Lemma insert_sorted_strict a l :
  a ∉ l -> StronglySorted (cmp_lt cmp) l ->
  StronglySorted (cmp_lt cmp) (insert_sorted cmp a l).
Proof.
  intros Ha Hl. induction Hl as [|b l Hl IH Hb]; simpl;
    [repeat constructor|].
  apply not_elem_of_cons in Ha as [Hab Ha].
  destruct (cmp a b) eqn:E.
  - by apply cmp_eq in E.
  - constructor; [by constructor|]. constructor; [done|].
    eapply Forall_impl; [exact Hb|]. intros x Hx.
    by apply (cmp_lt_trans a b x).
  - constructor; [by apply IH|]. rewrite insert_sorted_perm.
    constructor; [|done]. unfold cmp_lt. by rewrite cmp_antisym, E.
Qed.

Lemma py_sorted_strict l :
  NoDup l -> StronglySorted (cmp_lt cmp) (py_sorted cmp l).
Proof.
  induction 1 as [|a l Ha Hl IH]; simpl; [constructor|].
  apply insert_sorted_strict; [|done]. by rewrite py_sorted_perm.
Qed.

Lemma insert_unique_perm_strict a l :
  StronglySorted (cmp_lt cmp) l ->
  StronglySorted (cmp_lt cmp) (insert_unique cmp a l)
  /\ forall x, x ∈ insert_unique cmp a l <-> x = a \/ x ∈ l.
Proof.
  intros Hl. split; [|intros x; by apply insert_unique_elem].
  induction Hl as [|b l Hl IH Hb]; simpl; [repeat constructor|].
  destruct (cmp a b) eqn:E.
  - by constructor.
  - constructor; [by constructor|]. constructor; [done|].
    eapply Forall_impl; [exact Hb|]. intros x Hx.
    by apply (cmp_lt_trans a b x).
  - constructor; [done|]. apply Forall_forall. intros x Hx.
    apply (insert_unique_elem cmp a l x cmp_eq) in Hx as [->|Hx].
    + unfold cmp_lt. by rewrite cmp_antisym, E.
    + rewrite Forall_forall in Hb. auto.
Qed.

Lemma axis_labels_strict l : StronglySorted (cmp_lt cmp) (axis_labels cmp l).
Proof.
  induction l as [|a l IH]; simpl; [constructor|].
  by apply insert_unique_perm_strict.
Qed.

Lemma strict_sorted_NoDup l : StronglySorted (cmp_lt cmp) l -> NoDup l.
Proof.
  induction 1 as [|a l Hl IH Ha]; constructor; [|done].
  intros Hin. rewrite Forall_forall in Ha. specialize (Ha a Hin).
  unfold cmp_lt in Ha. pose proof (cmp_antisym a a) as H0.
  rewrite Ha in H0. discriminate.
Qed.

(** The labels of an axis are the sorted distinct values of the column. *)
Lemma axis_labels_py_sorted l : axis_labels cmp l = py_sorted cmp (unique l).
Proof.
  apply (StronglySorted_unique_strong (cmp_lt cmp)).
  - intros x y _ _ Hxy Hyx. unfold cmp_lt in *.
    rewrite cmp_antisym, Hxy in Hyx. discriminate.
  - apply axis_labels_strict.
  - apply py_sorted_strict, unique_from_NoDup.
  - apply NoDup_Permutation.
    + apply strict_sorted_NoDup, axis_labels_strict.
    + apply strict_sorted_NoDup, py_sorted_strict, unique_from_NoDup.
    + intros x. rewrite axis_labels_elem, py_sorted_perm, unique_elem;
        done.
Qed.
End comparison.

Lemma Z_compare_lt_trans (a b c : Z) :
  (a ?= b)%Z = Lt -> (b ?= c)%Z = Lt -> (a ?= c)%Z = Lt.
Proof. apply Z.lt_trans. Qed.

Lemma available_years_elem df y :
  y ∈ available_years df <-> exists r, r ∈ df /\ year r = y.
Proof.
  unfold available_years. rewrite py_sorted_perm, unique_elem.
  change (map year df) with (year <$> df). rewrite list_elem_of_fmap.
  split; intros (r & ? & ?); by exists r.
Qed.

Lemma available_sizes_elem df s :
  s ∈ available_sizes df <-> exists r, r ∈ df /\ size r = s.
Proof.
  unfold available_sizes. rewrite py_sorted_perm, unique_elem.
  change (map size df) with (size <$> df). rewrite list_elem_of_fmap.
  split; intros (r & ? & ?); by exists r.
Qed.

Lemma available_sizes_sorted df :
  StronglySorted (fun a b => str_compare a b = Lt) (available_sizes df).
Proof.
  apply py_sorted_strict;
    [intros a b; apply str_compare_antisym|apply str_compare_eq
    |intros a b c; apply str_compare_lt_trans|apply unique_from_NoDup].
Qed.

(** X8: the options of the two selectors are the years and the sizes that
    occur in the frame, each once, the years in ascending order and the sizes
    in ascending order as strings. *)
Theorem selector_options (df : list row) :
  (forall y, y ∈ available_years df <-> exists r, r ∈ df /\ year r = y)
  /\ StronglySorted Z.lt (available_years df)
  /\ (forall s, s ∈ available_sizes df <-> exists r, r ∈ df /\ size r = s)
  /\ StronglySorted (fun a b => str_compare a b = Lt) (available_sizes df).
Proof.
  split_and!.
  - apply available_years_elem.
  - apply (py_sorted_strict Z.compare);
      [apply Z.compare_antisym|apply Z.compare_eq|apply Z_compare_lt_trans
      |apply unique_from_NoDup].
  - apply available_sizes_elem.
  - apply available_sizes_sorted.
Qed.

Lemma default_sizes_take df : default_sizes df = take 5 (available_sizes df).
Proof.
  unfold default_sizes. destruct (Nat.ltb_spec 5 (length (available_sizes df)));
    [done|]. by rewrite take_ge.
Qed.

(** X9: the sizes selected at first are the first five options, or all of
    them when there are five or fewer; every size selected at first comes
    before every size left out, in the order of strings. *)
Theorem default_sizes_least_five (df : list row) :
  length (default_sizes df) = Nat.min 5 (length (available_sizes df))
  /\ (forall s, s ∈ default_sizes df -> s ∈ available_sizes df)
  /\ (forall s t, s ∈ default_sizes df -> t ∈ available_sizes df ->
        t ∉ default_sizes df -> str_compare s t = Lt).
Proof.
  rewrite default_sizes_take. split_and!.
  - apply length_take.
  - intros s Hs. apply (elem_of_sublist _ _ _ Hs), sublist_take.
  - intros s t Hs Ht Hno.
    pose proof (available_sizes_sorted df) as Hsorted.
    rewrite <- (take_drop 5 (available_sizes df)) in Hsorted, Ht.
    apply elem_of_app in Ht as [Ht|Ht]; [done|].
    by apply (StronglySorted_app_1_elem_of _ _ _ s t) in Hsorted.
Qed.

Lemma filter_iff_in {A} (P Q : A -> Prop) `{!forall x, Decision (P x)}
    `{!forall x, Decision (Q x)} (l : list A) :
  (forall x, x ∈ l -> P x <-> Q x) -> filter P l = filter Q l.
Proof.
  induction l as [|x l IH]; intros HPQ; [done|].
  rewrite !filter_cons, IH
    by (intros y Hy; apply HPQ; by apply list_elem_of_further).
  pose proof (HPQ x (list_elem_of_here _ _)) as Hx.
  destruct (decide (P x)) as [HP|HP], (decide (Q x)) as [HQ|HQ];
    [done|destruct HQ; by apply Hx|destruct HP; by apply Hx|done].
Qed.

Lemma filter_all {A} (P : A -> Prop) `{!forall x, Decision (P x)}
    (l : list A) :
  (forall x, x ∈ l -> P x) -> filter P l = l.
Proof.
  induction l as [|x l IH]; intros HP; [done|].
  rewrite filter_cons, decide_True by (apply HP, list_elem_of_here).
  rewrite IH; [done|]. intros y Hy. by apply HP, list_elem_of_further.
Qed.

(** X10: with the selection that the page starts with (all the years, the
    first five sizes) the page shows exactly the records of those sizes, and
    every record when the frame has five sizes or fewer. *)
Theorem default_selection (df : list row) :
  filtered_df df (available_years df) (default_sizes df)
  = filter (fun r => size r ∈ default_sizes df) df
  /\ ((length (available_sizes df) <= 5)%nat ->
      filtered_df df (available_years df) (default_sizes df) = df).
Proof.
  rewrite filtered_df_filter.
  assert (filter (fun r => year r ∈ available_years df
                           /\ size r ∈ default_sizes df) df
          = filter (fun r => size r ∈ default_sizes df) df) as ->.
  { apply filter_iff_in. intros r Hr. split; [tauto|]. intros Hs.
    split; [|done]. apply available_years_elem. by exists r. }
  split; [done|]. intros Hlen. apply filter_all. intros r Hr.
  rewrite default_sizes_take, take_ge by done.
  apply available_sizes_elem. by exists r.
Qed.

Lemma default_selection_witness :
  filtered_df scenario_records (available_years scenario_records)
    (default_sizes scenario_records)
  = filter (fun r => size r ∈ default_sizes scenario_records)
      scenario_records
  /\ ((length (available_sizes scenario_records) <= 5)%nat ->
      filtered_df scenario_records (available_years scenario_records)
        (default_sizes scenario_records) = scenario_records).
Proof. apply (default_selection scenario_records). Defined.

(** ** The chart *)

Lemma StronglySorted_filter {A} (R : A -> A -> Prop) (P : A -> Prop)
    `{!forall x, Decision (P x)} (l : list A) :
  StronglySorted R l -> StronglySorted R (filter P l).
Proof.
  induction 1 as [|a l Hl IH Ha]; [constructor|].
  rewrite filter_cons. destruct (decide (P a)); [|done].
  constructor; [done|]. rewrite Forall_forall in Ha. apply Forall_forall.
  intros x [_ Hx]%list_elem_of_filter. auto.
Qed.

Lemma chart_traces_elem filtered sizes t :
  t ∈ chart_traces filtered sizes ->
  exists sz, sz ∈ sizes
    /\ t = Trace sz (map year (filter (fun r => size r = sz) filtered))
                    (map price (filter (fun r => size r = sz) filtered)).
Proof.
  unfold chart_traces. change (map ?f sizes) with (f <$> sizes).
  intros (sz & -> & Hsz)%list_elem_of_fmap. exists sz. split; [done|].
  by rewrite select_size_filter.
Qed.

(** X11: on the frame that [load_and_process_data] returns, whatever the
    selection, every line of the chart has its years in ascending order from
    left to right, and a price for every year. *)
Theorem trace_years_ascending (text : str) (rows : list row)
    (years : list Z) (sizes : list str) (t : trace) :
  load_and_process_data text = Ok (Table rows) ->
  t ∈ chart_traces (filtered_df rows years sizes) sizes ->
  StronglySorted Z.le (trace_x t) /\ length (trace_x t) = length (trace_y t).
Proof.
  intros (st & _ & _ & ->)%load_and_process_data_rows
         (sz & _ & ->)%chart_traces_elem. simpl.
  split; [|by rewrite !length_map].
  rewrite filtered_df_filter.
  apply (StronglySorted_fmap _ (le_by [year_col; size_col])).
  - intros a b [Hlt|[-> _]]%le_by_year_size; lia.
  - do 2 apply StronglySorted_filter. apply sort_rows_sorted.
Qed.

Lemma trace_years_ascending_witness :
  StronglySorted Z.le [2020; 2023]%Z
  /\ length [2020; 2023]%Z = length [1000; 1300]%Z.
Proof.
  apply (trace_years_ascending scenario_text scenario_records
           [2020; 2023]%Z [lit "2.5SQ"]
           (Trace (lit "2.5SQ") [2020; 2023]%Z [1000; 1300]%Z)).
  - vm_compute. reflexivity.
  - vm_compute. apply list_elem_of_here.
Defined.

Lemma trace_records_rows sz (sd : list row) :
  (forall r, r ∈ sd -> size r = sz) ->
  trace_records (Trace sz (map year sd) (map price sd)) = sd.
Proof.
  unfold trace_records. simpl. induction sd as [|r sd IH]; intros Hs; [done|].
  simpl. rewrite IH by (intros r' Hr'; by apply Hs, list_elem_of_further).
  f_equal. rewrite <- (Hs r (list_elem_of_here _ _)). by destruct r.
Qed.

Lemma filter_by_sizes (l : list row) s ss :
  s ∉ ss ->
  filter (fun r => size r = s) l ++ filter (fun r => size r ∈ ss) l
  ≡ₚ filter (fun r => size r ∈ s :: ss) l.
Proof.
  intros Hs. induction l as [|r l IH]; [done|].
  rewrite !filter_cons.
  destruct (decide (size r = s)) as [E|E].
  - rewrite decide_False by (by rewrite E).
    rewrite decide_True by (rewrite E; apply list_elem_of_here).
    simpl. by rewrite IH.
  - destruct (decide (size r ∈ ss)) as [Hin|Hin].
    + rewrite decide_True by (by apply list_elem_of_further).
      rewrite <- Permutation_middle. by rewrite IH.
    + rewrite decide_False; [done|].
      intros [?|?]%elem_of_cons; done.
Qed.

Lemma filter_partition (l : list row) sizes :
  NoDup sizes ->
  flat_map (fun sz => filter (fun r => size r = sz) l) sizes
  ≡ₚ filter (fun r => size r ∈ sizes) l.
Proof.
  induction 1 as [|s ss Hs Hss IH]; simpl.
  - symmetry. apply Permutation_nil_r.
    induction l as [|r l IHl]; [done|].
    rewrite filter_cons, decide_False; [done|]. by intros ?%elem_of_nil.
  - rewrite IH. by apply filter_by_sizes.
Qed.

(** X12: the lines of the chart draw the selection, every record once: when
    no size is selected twice, the records of all the traces together are
    the filtered records, up to their order. *)
Theorem traces_partition_selection (df : list row) (years : list Z)
    (sizes : list str) :
  NoDup sizes ->
  flat_map trace_records (chart_traces (filtered_df df years sizes) sizes)
  ≡ₚ filtered_df df years sizes.
Proof.
  intros Hnd. set (l := filtered_df df years sizes).
  assert (flat_map trace_records (chart_traces l sizes)
          = flat_map (fun sz => filter (fun r => size r = sz) l) sizes) as ->.
  { unfold chart_traces. rewrite flat_map_concat_map, map_map.
    rewrite <- flat_map_concat_map. apply flat_map_eq_in. intros sz _.
    rewrite select_size_filter. apply trace_records_rows.
    by intros r [? _]%list_elem_of_filter. }
  rewrite filter_partition by done. apply reflexive_eq, filter_all.
  intros r. unfold l. rewrite filtered_df_filter.
  by intros [[_ ?] _]%list_elem_of_filter.
Qed.

Lemma traces_partition_selection_witness :
  flat_map trace_records
    (chart_traces (filtered_df scenario_records [2020; 2023]%Z [lit "2.5SQ"])
       [lit "2.5SQ"])
  ≡ₚ filtered_df scenario_records [2020; 2023]%Z [lit "2.5SQ"].
Proof.
  apply (traces_partition_selection scenario_records [2020; 2023]%Z
           [lit "2.5SQ"]).
  apply NoDup_singleton.
Defined.

(** ** The panel of changes *)

(** X15: the statistics that the panel shows for a size depend on the
    selected years only, and not on which other sizes are selected with
    it. *)
Theorem panel_statistics_by_years (df : list row) (years : list Z)
    (sizes1 sizes2 : list str) (sz : str) :
  sz ∈ sizes1 -> sz ∈ sizes2 ->
  calculate_price_changes (filtered_df df years sizes1) sz
  = calculate_price_changes (filtered_df df years sizes2) sz.
Proof.
  intros H1 H2.
  assert (forall sizes, sz ∈ sizes ->
            size_data (filtered_df df years sizes) sz
            = sort_rows [year_col]
                (filter (fun r => size r = sz /\ year r ∈ years) df)) as Hsd.
  { intros sizes Hin. unfold size_data.
    rewrite select_size_filter, filtered_df_filter, list_filter_filter.
    f_equal. apply filter_iff. intros r. split; [tauto|].
    intros [Hs Hy]. by rewrite Hs. }
  unfold calculate_price_changes. by rewrite (Hsd sizes1), (Hsd sizes2).
Qed.

Lemma panel_statistics_by_years_witness :
  calculate_price_changes
    (filtered_df scenario_records [2020; 2023]%Z [lit "2.5SQ"]) (lit "2.5SQ")
  = calculate_price_changes
      (filtered_df scenario_records [2020; 2023]%Z [lit "4SQ"; lit "2.5SQ"])
      (lit "2.5SQ").
Proof.
  apply (panel_statistics_by_years scenario_records).
  - apply list_elem_of_here.
  - apply list_elem_of_further, list_elem_of_here.
Defined.

(** ** The table *)

Lemma cell_of_Some df s y v :
  cell_of df s y = Some v -> Row y s v ∈ df.
Proof.
  unfold cell_of. destruct (filter _ df) as [|r l] eqn:E; [done|].
  intros [= <-].
  assert (r ∈ filter (fun r0 => size r0 = s /\ year r0 = y) df)
    as [[<- <-] Hr]%list_elem_of_filter by (rewrite E; by left).
  by destruct r.
Qed.

(** X16: when no two records share a size and a year, and the prices are
    below 2^46, [pivot] returns a table whose rows are the sizes of the
    records and whose columns are their years, both as the selectors list
    them, and in which the cell of a size and a year holds a price exactly
    when the record of that year, size and price is among the records.
    (Below 2^46 the binary64 numbers of a table with empty cells, rounded to
    two decimals, are the prices themselves.) *)
Theorem pivot_cells (df : list row) :
  NoDup (map cell_key df) ->
  Forall (fun r => (Z.abs (price r) < 2 ^ 46)%Z) df ->
  exists p,
    pivot df = Ok p
    /\ pivot_index p = available_sizes df
    /\ pivot_columns p = available_years df
    /\ forall s y v, pivot_cell p s y = Some v <-> Row y s v ∈ df.
Proof.
  intros Hnd _. unfold pivot. rewrite bool_decide_eq_true_2 by done.
  eexists. split; [done|]. simpl.
  split_and!.
  - apply axis_labels_py_sorted;
      [intros a b; apply str_compare_antisym|apply str_compare_eq
      |intros a b c; apply str_compare_lt_trans].
  - apply axis_labels_py_sorted;
      [apply Z.compare_antisym|apply Z.compare_eq|apply Z_compare_lt_trans].
  - intros s y v. split.
    + unfold pivot_cell. simpl.
      destruct (list_find _ (axis_labels str_compare _)) as [[i s']|] eqn:Ei;
        [|done].
      destruct (list_find _ (axis_labels Z.compare _)) as [[j y']|] eqn:Ej;
        [|done].
      apply list_find_Some in Ei as (Ei & -> & _).
      apply list_find_Some in Ej as (Ej & -> & _).
      change (map ?f ?l) with (f <$> l).
      rewrite list_lookup_fmap, Ei. simpl.
      change (map ?f ?l) with (f <$> l).
      rewrite list_lookup_fmap, Ej. simpl. apply cell_of_Some.
    + intros Hr.
      destruct (pivot_without_collision df Hnd) as (p & Hp & Hcell).
      unfold pivot in Hp. rewrite bool_decide_eq_true_2 in Hp by done.
      injection Hp as <-. apply (Hcell _ Hr).
Qed.

Lemma pivot_cells_witness :
  exists p,
    pivot scenario_records = Ok p
    /\ pivot_index p = available_sizes scenario_records
    /\ pivot_columns p = available_years scenario_records
    /\ forall s y v,
         pivot_cell p s y = Some v <-> Row y s v ∈ scenario_records.
Proof.
  apply (pivot_cells scenario_records).
  - apply (bool_decide_unpack _). vm_compute. exact I.
  - repeat constructor.
Defined.

Lemma shared_key {A B} `{EqDecision B} (f : A -> B) (l : list A) :
  ~ NoDup (map f l) ->
  exists l1 x l2 y l3, l = l1 ++ x :: l2 ++ y :: l3 /\ f x = f y.
Proof.
  induction l as [|a l IH]; simpl; [intros H; destruct H; constructor|].
  intros Hnd. destruct (decide (f a ∈ map f l)) as [Hin|Hin].
  - change (map f l) with (f <$> l) in Hin.
    apply list_elem_of_fmap in Hin as (y & Hy & Hin).
    apply list_elem_of_split in Hin as (l2 & l3 & ->).
    by exists [], a, l2, y, l3.
  - destruct IH as (l1 & x & l2 & y & l3 & -> & E).
    { intros H. apply Hnd. by constructor. }
    by exists (a :: l1), x, l2, y, l3.
Qed.

(** X17: on records without duplicates, as [load_and_process_data] returns
    them and every selection keeps them, [pivot] fails exactly when two
    records give one size two prices in one year; its only exception is
    ValueError. *)
Theorem pivot_fails_on_collision_only (df : list row) :
  NoDup df ->
  (forall e, pivot df = Raise e -> e = ValueError)
  /\ (pivot df = Raise ValueError
      <-> exists r1 r2, r1 ∈ df /\ r2 ∈ df /\ size r1 = size r2
            /\ year r1 = year r2 /\ price r1 <> price r2).
Proof.
  intros Hnd. unfold pivot. case_bool_decide as Hk.
  - split; [done|]. split; [done|].
    intros (r1 & r2 & H1 & H2 & Hs & Hy & Hp). destruct Hp. f_equal.
    apply (NoDup_key_inj df r1 r2 Hk H1 H2). unfold cell_key.
    by rewrite Hs, Hy.
  - split; [by intros e [= <-]|]. split; [intros _|done].
    destruct (shared_key (fun r => (size r, year r)) df Hk)
      as (l1 & x & l2 & y & l3 & -> & E).
    injection E as Hs Hy. exists x, y.
    split_and!; [|  |done|done|].
    + apply elem_of_app. right. apply list_elem_of_here.
    + apply elem_of_app. right. apply list_elem_of_further, elem_of_app.
      right. apply list_elem_of_here.
    + intros Hp. assert (x = y) as -> by (destruct x, y; simpl in *; congruence).
      apply NoDup_app in Hnd as (_ & _ & Hnd).
      apply NoDup_cons in Hnd as [Hnd _]. apply Hnd, elem_of_app. right.
      apply list_elem_of_here.
Qed.

Lemma pivot_fails_on_collision_only_witness :
  (forall e, pivot scenario_records = Raise e -> e = ValueError)
  /\ (pivot scenario_records = Raise ValueError
      <-> exists r1 r2, r1 ∈ scenario_records /\ r2 ∈ scenario_records
            /\ size r1 = size r2 /\ year r1 = year r2
            /\ price r1 <> price r2).
Proof.
  apply (pivot_fails_on_collision_only scenario_records).
  apply (bool_decide_unpack _). vm_compute. exact I.
Defined.
